(** * A shallow embedding of the course-assistant backend

    The development follows [backend/ai_generator.py] (class [AIGenerator],
    the bounded multi-round tool-calling loop) and, for the retrieval side
    whose modules are exercised by the test-suite only, the behaviour the
    specification gives for them.

    Conventions.
    - The language-model client and the tool manager are external
      collaborators.  Their state is an abstract [World]; a call to either is
      a function from worlds to worlds together with the value returned or
      the exception raised.
    - Every call that leaves the orchestrator is recorded in an event log, so
      that statements about which calls happen, how often and in which order
      are statements about that log.
    - Python's [int] is [Z]; a [str] is a [string]; [Optional[T]] is
      [option T]; the mutable [messages] list is threaded explicitly. *)

From Stdlib Require Import List String Ascii ZArith Bool Lia DecimalString.
Import ListNotations.

(* ================================================================= *)
(** ** Python values shared by the modules *)

(** An exception is identified with what [str(e)] prints. *)
Inductive Exception : Type := Exc (msg : string).

Definition str (e : Exception) : string := let 'Exc m := e in m.

(** The outcome of evaluating a Python expression. *)
Inductive Result (A : Type) : Type :=
| Returned (a : A)
| Raised (e : Exception).

Arguments Returned {A} a.
Arguments Raised {A} e.

(** Truthiness of an [Optional[str]]: [None] and the empty string are falsy. *)
Definition truthy_str (o : option string) : bool :=
  match o with
  | Some (String _ _) => true
  | _ => false
  end.

(** Truthiness of an [Optional[List]]: [None] and the empty list are falsy. *)
Definition truthy_list {A} (o : option (list A)) : bool :=
  match o with
  | Some (_ :: _) => true
  | _ => false
  end.

(** [range(n)] for a Python integer [n]; empty when [n <= 0]. *)
Definition range (n : Z) : list Z := map Z.of_nat (seq 0 (Z.to_nat n)).

Definition nl : string := String (ascii_of_nat 10) EmptyString.

(** [counts_up_to n rs]: [rs] is a final segment of [range(n)]. *)
Fixpoint counts_up_to (n : Z) (rs : list Z) : Prop :=
  match rs with
  | [] => True
  | rn :: rest =>
      (0 <= rn)%Z
      /\ match rest with
         | [] => (rn + 1 = n)%Z
         | rn' :: _ => (rn' = rn + 1)%Z
         end
      /\ counts_up_to n rest
  end.

Lemma seq_counts_up len :
  forall k, counts_up_to (Z.of_nat (k + len)) (map Z.of_nat (seq k len)).
Proof.
  induction len as [|len IH]; intros k; simpl; [exact I|].
  split; [lia|]. split.
  - destruct len; simpl; lia.
  - specialize (IH (S k)). replace (k + S len)%nat with (S k + len)%nat by lia.
    exact IH.
Qed.

Lemma range_counts_up n : counts_up_to n (range n).
Proof.
  unfold range. destruct (Z_le_gt_dec n 0) as [Hn|Hn].
  - replace (Z.to_nat n) with 0%nat by lia. exact I.
  - replace n with (Z.of_nat (0 + Z.to_nat n)) at 1 by lia.
    apply seq_counts_up.
Qed.

Lemma counts_up_head n rn rest : counts_up_to n (rn :: rest) -> (rn + 1 <= n)%Z.
Proof.
  revert rn; induction rest as [|rn' rest IH]; intros rn (H0 & H1 & H2).
  - lia.
  - specialize (IH rn' H2). lia.
Qed.

Lemma counts_up_more n rn rest :
  counts_up_to n (rn :: rest) -> (rn + 1 < n)%Z ->
  rest <> [] /\ counts_up_to n rest.
Proof.
  intros (H0 & H1 & H2) Hlt. split; [|exact H2].
  destruct rest; [lia | discriminate].
Qed.

Lemma range_length n : List.length (range n) = Z.to_nat n.
Proof. unfold range. rewrite length_map, length_seq. reflexivity. Qed.

Lemma range_nonempty n : (1 <= n)%Z -> range n <> [].
Proof.
  intros Hn E. apply (f_equal (@List.length Z)) in E.
  rewrite range_length in E. simpl in E. lia.
Qed.

(** [each_suffix P log]: wherever [log] is cut as [pre ++ ev :: post], the
    event [ev] and what follows it satisfy [P]. *)
Definition each_suffix {E} (P : E -> list E -> Prop) (log : list E) : Prop :=
  forall pre ev post, log = pre ++ ev :: post -> P ev post.

Lemma each_suffix_nil {E} (P : E -> list E -> Prop) : each_suffix P [].
Proof. intros [|? ?] ev post H; discriminate. Qed.

Lemma each_suffix_cons {E} (P : E -> list E -> Prop) ev log :
  P ev log -> each_suffix P log -> each_suffix P (ev :: log).
Proof.
  intros Hev Hlog [|e pre] ev' post H; simpl in H; inversion H; subst.
  - exact Hev.
  - eapply Hlog; reflexivity.
Qed.

Lemma each_suffix_app {E} (P : E -> list E -> Prop) l1 l2 :
  (forall ev post, In ev l1 -> P ev post) ->
  each_suffix P l2 -> each_suffix P (l1 ++ l2).
Proof.
  induction l1 as [|a l1 IH]; intros H1 H2; simpl; [exact H2|].
  apply each_suffix_cons.
  - apply H1; left; reflexivity.
  - apply IH; [intros; apply H1; right; assumption | exact H2].
Qed.

(** [each_prefix P log]: wherever [log] is cut as [pre ++ ev :: post], what
    precedes [ev], and [ev], satisfy [P]. *)
Definition each_prefix {E} (P : list E -> E -> Prop) (log : list E) : Prop :=
  forall pre ev post, log = pre ++ ev :: post -> P pre ev.

Lemma each_prefix_nil {E} (P : list E -> E -> Prop) : each_prefix P [].
Proof. intros [|? ?] ev post H; discriminate. Qed.

Lemma each_prefix_cons {E} (P : list E -> E -> Prop) ev log :
  P [] ev -> each_prefix (fun pre e => P (ev :: pre) e) log ->
  each_prefix P (ev :: log).
Proof.
  intros Hev Hlog [|e pre] ev' post H; simpl in H; inversion H; subst.
  - exact Hev.
  - eapply Hlog; reflexivity.
Qed.

Lemma each_prefix_app {E} (P : list E -> E -> Prop) l1 l2 :
  (forall pre ev, In ev l1 -> P pre ev) ->
  each_prefix (fun pre e => P (l1 ++ pre) e) l2 ->
  each_prefix P (l1 ++ l2).
Proof.
  revert P. induction l1 as [|a l1 IH]; intros P H1 H2; simpl; [exact H2|].
  apply each_prefix_cons.
  - apply H1; left; reflexivity.
  - apply IH; [intros; apply H1; right; assumption | exact H2].
Qed.

Lemma each_prefix_app_each {E} (P : list E -> E -> Prop) l1 l2 :
  each_prefix P l1 ->
  each_prefix (fun pre e => P (l1 ++ pre) e) l2 ->
  each_prefix P (l1 ++ l2).
Proof.
  revert P. induction l1 as [|a l1 IH]; intros P H1 H2; simpl; [exact H2|].
  apply each_prefix_cons.
  - apply (H1 [] a l1). reflexivity.
  - apply IH; [| exact H2].
    intros pre ev post Hcut. apply (H1 (a :: pre) ev post).
    rewrite Hcut. reflexivity.
Qed.

Lemma each_prefix_impl {E} (P Q : list E -> E -> Prop) log :
  (forall pre ev, P pre ev -> Q pre ev) ->
  each_prefix P log -> each_prefix Q log.
Proof. intros HPQ HP pre ev post H. apply HPQ. eapply HP; eauto. Qed.

(* ================================================================= *)
(** ** [ai_generator.py] *)

Module AIGenerator.

(** *** Data exchanged with the model *)

(** [tool_call]: [.id], [.function.name], [.function.arguments]. *)
Record ToolCall : Type := {
  tc_id : string;
  tc_function_name : string;
  tc_function_arguments : string
}.

(** [response.choices[0].message] *)
Record ChatMessage : Type := {
  content : option string;
  tool_calls : list ToolCall
}.

(** [response.choices[0]] *)
Record Response : Type := {
  finish_reason : string;
  message : ChatMessage
}.

(** An element of the [messages] list. *)
Inductive Message : Type :=
| Dict (role : string) (text : string)
    (* {"role": role, "content": text} *)
| ToolDict (tool_call_id : string) (text : string)
    (* {"role": "tool", "tool_call_id": ..., "content": ...} *)
| Obj (m : ChatMessage).
    (* a message object of a response, appended as it is *)

(** A JSON object kept as key/text pairs. *)
Definition Schema : Type := list (string * string).

(** A tool definition as the tool manager hands it out: a dictionary.  The
    three keys the generator reads may each be missing, hence
    [tool.get(key, default)] below; [t_other] holds the entries under any
    other key. *)
Record AnthropicTool : Type := {
  t_name : option string;
  t_description : option string;
  t_input_schema : option Schema;
  t_other : list (string * string)
}.

Record OpenAITool : Type := {
  o_type : string;
  o_name : string;
  o_description : string;
  o_parameters : Schema
}.

(** Keyword arguments of [client.chat.completions.create]. *)
Record ApiParams : Type := {
  p_model : string;
  p_temperature : Z;
  p_max_tokens : Z;
  p_messages : list Message;
  p_tools : option (list OpenAITool);
  p_tool_choice : option string
}.

(** Which method issued a model call. *)
Inductive CallSite : Type :=
| MakeApiCall          (* _make_api_call *)
| ShouldContinue       (* _should_continue_to_next_round *)
| GetFinalResponse.    (* _get_final_response *)

Definition get {A} (o : option A) (default : A) : A :=
  match o with Some a => a | None => default end.

Definition CONTINUE_PROMPT : string :=
  "Based on the information you've gathered, do you have sufficient information to provide a complete answer, or do you need to use additional tools? If you need more information, use the appropriate tools. If you have sufficient information, provide your final comprehensive response.".

Definition FINAL_PROMPT : string :=
  "Based on all the information gathered, please provide your final comprehensive answer.".

Section Generator.

(** The state of the outside world: the model service and whatever the tools
    touch. *)
Variable World : Type.

(** Keyword arguments obtained from a tool call's argument payload. *)
Variable Kwargs : Type.

(** [**json.loads(payload)]: the keyword mapping, or the exception raised by
    the parser (or by the unpacking of something that is not a mapping). *)
Variable json_loads : string -> Result Kwargs.

(** [self.client.chat.completions.create] on keyword arguments [params] *)
Variable create : ApiParams -> World -> World * Result Response.

(** [tool_manager.execute_tool(name, **kwargs)] *)
Definition ToolManager : Type := string -> Kwargs -> World -> World * Result string.

(** The class constant and the constructor's [model] argument. *)
Variable SYSTEM_PROMPT : string.
Variable self_model : string.

(** *** The log of outgoing calls *)

Inductive Event : Type :=
| EvCreate (site : CallSite) (params : ApiParams) (res : Result Response)
    (* a call of the model client and its outcome *)
| EvRound (current_round : Z) (requested : list ToolCall)
    (* _handle_tool_execution_round entered for that 1-based round *)
| EvExecuteTool (current_round : Z) (name : string) (kwargs : Kwargs)
                (res : Result string).
    (* a call of tool_manager.execute_tool and its outcome *)

(** *** Computations: world passing, a log, exceptions *)

Definition M (A : Type) : Type := World -> World * list Event * Result A.

Definition ret {A} (a : A) : M A := fun w => (w, [], Returned a).

Definition raise {A} (e : Exception) : M A := fun w => (w, [], Raised e).

Definition bind {A B} (m : M A) (f : A -> M B) : M B :=
  fun w =>
    let '(w1, l1, r) := m w in
    match r with
    | Raised e => (w1, l1, Raised e)
    | Returned a => let '(w2, l2, r2) := f a w1 in (w2, l1 ++ l2, r2)
    end.

(** [try: m  except Exception as e: h e] *)
Definition try_except {A} (m : M A) (h : Exception -> M A) : M A :=
  fun w =>
    let '(w1, l1, r) := m w in
    match r with
    | Returned a => (w1, l1, Returned a)
    | Raised e => let '(w2, l2, r2) := h e w1 in (w2, l1 ++ l2, r2)
    end.

Definition lift {A} (r : Result A) : M A := fun w => (w, [], r).

Notation "x <- m ;; k" := (bind m (fun x => k))
  (at level 100, m at next level, right associativity).

Definition client_create (site : CallSite) (params : ApiParams) : M Response :=
  fun w => let '(w', r) := create params w in (w', [EvCreate site params r], r).

Definition execute_tool (tool_manager : ToolManager) (current_round : Z)
    (name : string) (kwargs : Kwargs) : M string :=
  fun w =>
    let '(w', r) := tool_manager name kwargs w in
    (w', [EvExecuteTool current_round name kwargs r], r).

Definition mark_round (current_round : Z) (requested : list ToolCall) : M unit :=
  fun w => (w, [EvRound current_round requested], Returned tt).

(** *** The methods *)

(** [{**self.base_params, "messages": messages}] *)
Definition base_params (messages : list Message) : ApiParams :=
  {| p_model := self_model;
     p_temperature := 0%Z;
     p_max_tokens := 800%Z;
     p_messages := messages;
     p_tools := None;
     p_tool_choice := None |}.

Definition _convert_tools_to_openai_format (anthropic_tools : list AnthropicTool)
  : list OpenAITool :=
  map (fun tool =>
         {| o_type := "function";
            o_name := get (t_name tool) ""%string;
            o_description := get (t_description tool) ""%string;
            o_parameters := get (t_input_schema tool) [] |})
      anthropic_tools.

Definition api_params (messages : list Message)
    (tools : option (list AnthropicTool)) : ApiParams :=
  let api_params := base_params messages in
  if truthy_list tools then
    {| p_model := p_model api_params;
       p_temperature := p_temperature api_params;
       p_max_tokens := p_max_tokens api_params;
       p_messages := p_messages api_params;
       p_tools := Some (_convert_tools_to_openai_format (get tools []));
       p_tool_choice := Some "auto"%string |}
  else api_params.

Definition _make_api_call (messages : list Message)
    (tools : option (list AnthropicTool)) : M Response :=
  client_create MakeApiCall (api_params messages tools).

Definition final_params (messages : list Message) : ApiParams :=
  base_params (messages ++ [Dict "user" FINAL_PROMPT]).

Definition _get_final_response (messages : list Message) : M (option string) :=
  final_response <- client_create GetFinalResponse (final_params messages) ;;
  ret (content (message final_response)).

Definition decision_params (messages : list Message) : ApiParams :=
  base_params (messages ++ [Dict "user" CONTINUE_PROMPT]).

(** Returns the [messages] list as the call leaves it, and the pair the
    method returns. *)
Definition _should_continue_to_next_round (messages : list Message)
  : M (list Message * (bool * option string)) :=
  decision_response <- client_create ShouldContinue (decision_params messages) ;;
  if String.eqb (finish_reason decision_response) "tool_calls" then
    ret (messages ++ [Obj (message decision_response)], (true, None))
  else
    ret (messages, (false, content (message decision_response))).

Definition error_msg (e : Exception) : string :=
  ("Tool execution failed: " ++ str e)%string.

(** The body of [for tool_call in tool_calls], over the remaining calls. *)
Fixpoint tool_loop (tool_manager : ToolManager) (current_round : Z)
    (remaining : list ToolCall) (messages : list Message) : M (list Message) :=
  match remaining with
  | [] => ret messages
  | tool_call :: rest =>
      messages' <-
        try_except
          (kwargs <- lift (json_loads (tc_function_arguments tool_call)) ;;
           tool_result <- execute_tool tool_manager current_round
                            (tc_function_name tool_call) kwargs ;;
           ret (messages ++ [ToolDict (tc_id tool_call) tool_result]))
          (fun e =>
             ret (messages ++ [ToolDict (tc_id tool_call) (error_msg e)])) ;;
      tool_loop tool_manager current_round rest messages'
  end.

Definition _handle_tool_execution_round (response : Response)
    (messages : list Message) (tool_manager : ToolManager)
    (current_round max_rounds : Z)
  : M (list Message * (bool * option string)) :=
  _ <- mark_round current_round (tool_calls (message response)) ;;
  let messages := messages ++ [Obj (message response)] in
  messages <- tool_loop tool_manager current_round
                (tool_calls (message response)) messages ;;
  if (current_round >=? max_rounds)%Z then
    ret (messages, (false, None))
  else
    _should_continue_to_next_round messages.

(** [finish_reason == "tool_calls" and tool_manager] *)
Definition wants_tools (response : Response)
    (tool_manager : option ToolManager) : option ToolManager :=
  if String.eqb (finish_reason response) "tool_calls" then tool_manager else None.

(** The body of [for round_num in range(max_rounds)], over the remaining
    round numbers, followed by the statement after the loop. *)
Fixpoint round_loop (tools : option (list AnthropicTool))
    (tool_manager : option ToolManager) (max_rounds : Z)
    (remaining : list Z) (messages : list Message) : M (option string) :=
  match remaining with
  | [] => _get_final_response messages
  | round_num :: rest =>
      response <- _make_api_call messages tools ;;
      match wants_tools response tool_manager with
      | Some tm =>
          r <- _handle_tool_execution_round response messages tm
                 (round_num + 1)%Z max_rounds ;;
          let '(messages, (should_continue, final_response)) := r in
          if negb should_continue then
            if truthy_str final_response then ret final_response
            else _get_final_response messages
          else if (round_num + 1 >=? max_rounds)%Z then
            _get_final_response messages
          else
            round_loop tools tool_manager max_rounds rest messages
      | None => ret (content (message response))
      end
  end.

Definition system_content (conversation_history : option string) : string :=
  if truthy_str conversation_history then
    (SYSTEM_PROMPT ++ nl ++ nl ++ "Previous conversation:" ++ nl
       ++ get conversation_history "")%string
  else SYSTEM_PROMPT.

Definition initial_messages (query : string)
    (conversation_history : option string) : list Message :=
  [Dict "system" (system_content conversation_history); Dict "user" query].

Definition generate_response (query : string)
    (conversation_history : option string)
    (tools : option (list AnthropicTool))
    (tool_manager : option ToolManager) (max_rounds : Z) : M (option string) :=
  round_loop tools tool_manager max_rounds (range max_rounds)
    (initial_messages query conversation_history).

(** *** What the specification asks of one round of tool calls

    Stated from the specification's words: the calls are run one after the
    other in the order requested; a call whose payload does not parse or
    whose execution raises contributes the text of the failure, any other
    call the string the tool returned; either way the call has one result. *)

Inductive tool_outcome (tool_manager : ToolManager) (current_round : Z)
    (tc : ToolCall) : World -> World -> list Event -> string -> Prop :=
| outcome_malformed w e :
    json_loads (tc_function_arguments tc) = Raised e ->
    tool_outcome tool_manager current_round tc w w []
      ("Tool execution failed: " ++ str e)%string
| outcome_success w w' kwargs s :
    json_loads (tc_function_arguments tc) = Returned kwargs ->
    tool_manager (tc_function_name tc) kwargs w = (w', Returned s) ->
    tool_outcome tool_manager current_round tc w w'
      [EvExecuteTool current_round (tc_function_name tc) kwargs (Returned s)] s
| outcome_failure w w' kwargs e :
    json_loads (tc_function_arguments tc) = Returned kwargs ->
    tool_manager (tc_function_name tc) kwargs w = (w', Raised e) ->
    tool_outcome tool_manager current_round tc w w'
      [EvExecuteTool current_round (tc_function_name tc) kwargs (Raised e)]
      ("Tool execution failed: " ++ str e)%string.

Inductive tools_run (tool_manager : ToolManager) (current_round : Z)
  : list ToolCall -> World -> World -> list Event -> list Message -> Prop :=
| tools_done w : tools_run tool_manager current_round [] w w [] []
| tools_next tc rest w w1 w2 l1 l2 s results :
    tool_outcome tool_manager current_round tc w w1 l1 s ->
    tools_run tool_manager current_round rest w1 w2 l2 results ->
    tools_run tool_manager current_round (tc :: rest) w w2 (l1 ++ l2)
      (ToolDict (tc_id tc) s :: results).

(** An event of the tool loop of round [current_round]. *)
Definition is_exec (current_round : Z) (ev : Event) : bool :=
  match ev with
  | EvExecuteTool cr _ _ _ => (cr =? current_round)%Z
  | _ => false
  end.

Definition result_id (m : Message) : option string :=
  match m with
  | ToolDict i _ => Some i
  | _ => None
  end.

Lemma tool_outcome_total tool_manager current_round tc w :
  exists w1 l1 s, tool_outcome tool_manager current_round tc w w1 l1 s.
Proof.
  destruct (json_loads (tc_function_arguments tc)) as [kwargs|e] eqn:Hj.
  - destruct (tool_manager (tc_function_name tc) kwargs w) as [w1 [s|e]] eqn:Ht.
    + exists w1; eexists; exists s; eapply outcome_success; eauto.
    + exists w1; eexists; eexists; eapply outcome_failure; eauto.
  - exists w; eexists; eexists; eapply outcome_malformed; eauto.
Qed.

Lemma tool_loop_step tool_manager current_round tc rest messages w w1 l1 s :
  tool_outcome tool_manager current_round tc w w1 l1 s ->
  tool_loop tool_manager current_round (tc :: rest) messages w =
  let '(w2, l2, r) :=
    tool_loop tool_manager current_round rest
      (messages ++ [ToolDict (tc_id tc) s]) w1 in
  (w2, l1 ++ l2, r).
Proof.
  intros H; simpl.
  unfold bind at 1, try_except, bind, lift, execute_tool, ret.
  destruct H as [w e Hj | w w' kwargs s Hj Ht | w w' kwargs e Hj Ht];
    rewrite Hj; try rewrite Ht; simpl;
    destruct (tool_loop _ _ _ _ _) as [[w2 l2] r]; reflexivity.
Qed.

Lemma tool_loop_run tool_manager current_round tcs :
  forall messages w,
  exists w' log results,
    tool_loop tool_manager current_round tcs messages w
      = (w', log, Returned (messages ++ results))
    /\ tools_run tool_manager current_round tcs w w' log results.
Proof.
  induction tcs as [|tc rest IH]; intros messages w.
  - exists w, [], []. simpl. unfold ret. rewrite app_nil_r.
    split; [reflexivity | constructor].
  - destruct (tool_outcome_total tool_manager current_round tc w)
      as (w1 & l1 & s & Hs).
    destruct (IH (messages ++ [ToolDict (tc_id tc) s]) w1)
      as (w2 & l2 & results & Hrun & Hrel).
    exists w2, (l1 ++ l2), (ToolDict (tc_id tc) s :: results).
    split; [| econstructor; eauto].
    rewrite (tool_loop_step _ _ _ rest messages _ _ _ _ Hs), Hrun.
    rewrite <- app_assoc. reflexivity.
Qed.

Lemma tools_run_results tool_manager current_round tcs w w' log results :
  tools_run tool_manager current_round tcs w w' log results ->
  map result_id results = map (fun tc => Some (tc_id tc)) tcs.
Proof.
  induction 1; simpl; [reflexivity | f_equal; assumption].
Qed.

Lemma tools_run_events tool_manager current_round tcs w w' log results :
  tools_run tool_manager current_round tcs w w' log results ->
  forallb (is_exec current_round) log = true.
Proof.
  induction 1 as [| tc rest w w1 w2 l1 l2 s results Ho _ IH]; [reflexivity|].
  rewrite forallb_app, IH, andb_true_r.
  destruct Ho; simpl; rewrite ?Z.eqb_refl; reflexivity.
Qed.

(** *** Reading a log *)

Definition log_of {A} (x : World * list Event * Result A) : list Event :=
  snd (fst x).

Definition outcome_of {A} (x : World * list Event * Result A) : Result A :=
  snd x.

Definition exec_round (ev : Event) : list Z :=
  match ev with
  | EvExecuteTool cr _ _ _ => [cr]
  | _ => []
  end.

(** The rounds in which at least one tool was executed. *)
Definition tool_rounds (log : list Event) : list Z :=
  nodup Z.eq_dec (flat_map exec_round log).

Definition is_round_start (ev : Event) : bool :=
  match ev with
  | EvRound _ _ => true
  | _ => false
  end.

(** How many rounds of tool calls were started. *)
Definition rounds_started (log : list Event) : nat :=
  List.length (filter is_round_start log).

Definition is_create (ev : Event) : bool :=
  match ev with
  | EvCreate _ _ _ => true
  | _ => false
  end.

(** How many times the model was called. *)
Definition model_calls (log : list Event) : nat :=
  List.length (filter is_create log).

Definition transport_failed (ev : Event) : bool :=
  match ev with
  | EvCreate _ _ (Raised _) => true
  | _ => false
  end.

Definition is_final_call (ev : Event) : bool :=
  match ev with
  | EvCreate GetFinalResponse _ _ => true
  | _ => false
  end.

(** The forced synthesis call was made. *)
Definition final_synthesis_called (log : list Event) : bool :=
  existsb is_final_call log.

Definition is_round (n : Z) (ev : Event) : bool :=
  match ev with
  | EvRound cr _ => (cr =? n)%Z
  | _ => false
  end.

(** The tool calls of round [n] were run. *)
Definition round_executed (n : Z) (log : list Event) : bool :=
  existsb (is_round n) log.

Definition is_empty_answer (ev : Event) : bool :=
  match ev with
  | EvCreate ShouldContinue _ (Returned d) =>
      negb (String.eqb (finish_reason d) "tool_calls")
      && negb (truthy_str (content (message d)))
  | _ => false
  end.

(** A continuation check came back without a tool request and without any
    text. *)
Definition check_answered_empty (log : list Event) : bool :=
  existsb is_empty_answer log.

Definition hides_tools (ev : Event) : bool :=
  match ev with
  | EvCreate ShouldContinue p _ =>
      match p_tools p, p_tool_choice p with
      | None, None => true
      | _, _ => false
      end
  | _ => true
  end.

(** Logs made of tool executions of one round only. *)

Lemma exec_only_In cr tl ev :
  forallb (is_exec cr) tl = true -> In ev tl ->
  exists n k r, ev = EvExecuteTool cr n k r.
Proof.
  intros H Hin. rewrite forallb_forall in H. specialize (H ev Hin).
  destruct ev as [| |cr' n k r]; simpl in H; try discriminate.
  apply Z.eqb_eq in H; subst. eauto.
Qed.

Lemma exec_only_existsb (f : Event -> bool) cr tl :
  (forall c n k r, f (EvExecuteTool c n k r) = false) ->
  forallb (is_exec cr) tl = true -> existsb f tl = false.
Proof.
  intros Hf H. destruct (existsb f tl) eqn:E; [|reflexivity].
  apply existsb_exists in E. destruct E as (ev & Hin & Hev).
  destruct (exec_only_In _ _ _ H Hin) as (n & k & r & ->).
  rewrite Hf in Hev; discriminate.
Qed.

Lemma exec_only_forallb (f : Event -> bool) cr tl :
  (forall c n k r, f (EvExecuteTool c n k r) = true) ->
  forallb (is_exec cr) tl = true -> forallb f tl = true.
Proof.
  intros Hf H. apply forallb_forall. intros ev Hin.
  destruct (exec_only_In _ _ _ H Hin) as (n & k & r & ->). apply Hf.
Qed.

Lemma exec_only_filter (f : Event -> bool) cr tl :
  (forall c n k r, f (EvExecuteTool c n k r) = false) ->
  forallb (is_exec cr) tl = true -> filter f tl = [].
Proof.
  intros Hf. induction tl as [|ev tl IH]; simpl; intros H; [reflexivity|].
  apply andb_true_iff in H. destruct H as [Hev Htl].
  destruct ev as [| |c n k r]; simpl in Hev; try discriminate.
  rewrite Hf. auto.
Qed.

Lemma exec_only_rounds cr tl :
  forallb (is_exec cr) tl = true -> incl (flat_map exec_round tl) [cr].
Proof.
  induction tl as [|ev tl IH]; simpl; intros H; [apply incl_nil_l|].
  apply andb_true_iff in H. destruct H as [Hev Htl].
  destruct ev as [| |c n k r]; simpl in Hev; try discriminate.
  apply Z.eqb_eq in Hev; subst. simpl.
  apply incl_cons; [left; reflexivity | auto].
Qed.

(** *** The runs of the round loop

    [rounds_run rs messages log out]: starting a pass over the round numbers
    [rs] with the conversation [messages], the loop issues the calls [log]
    and leaves [generate_response] with [out].  One rule per way through the
    loop body. *)

Definition answer_of (res : Result Response) : Result (option string) :=
  match res with
  | Returned r => Returned (content (message r))
  | Raised e => Raised e
  end.

Definition tool_phase (tm : ToolManager) (current_round : Z) (r : Response)
    (messages : list Message) (tl : list Event) (messages1 : list Message) : Prop :=
  exists w w' results,
    tools_run tm current_round (tool_calls (message r)) w w' tl results
    /\ messages1 = messages ++ [Obj (message r)] ++ results.

Section Run.

Variable tools : option (list AnthropicTool).
Variable tool_manager : option ToolManager.
Variable max_rounds : Z.

Definition round_call (messages : list Message) (res : Result Response) : Event :=
  EvCreate MakeApiCall (api_params messages tools) res.

Definition check_call (messages : list Message) (res : Result Response) : Event :=
  EvCreate ShouldContinue (decision_params messages) res.

Definition final_call (messages : list Message) (res : Result Response) : Event :=
  EvCreate GetFinalResponse (final_params messages) res.

Inductive rounds_run
  : list Z -> list Message -> list Event -> Result (option string) -> Prop :=
| run_exhausted ms res :
    rounds_run [] ms [final_call ms res] (answer_of res)
| run_call_raised rn rs ms e :
    rounds_run (rn :: rs) ms [round_call ms (Raised e)] (Raised e)
| run_direct rn rs ms r :
    wants_tools r tool_manager = None ->
    rounds_run (rn :: rs) ms [round_call ms (Returned r)]
      (Returned (content (message r)))
| run_limit rn rs ms r tm tl ms1 res :
    wants_tools r tool_manager = Some tm ->
    tool_phase tm (rn + 1) r ms tl ms1 ->
    (rn + 1 >= max_rounds)%Z ->
    rounds_run (rn :: rs) ms
      (round_call ms (Returned r) :: EvRound (rn + 1) (tool_calls (message r))
         :: tl ++ [final_call ms1 res])
      (answer_of res)
| run_check_raised rn rs ms r tm tl ms1 e :
    wants_tools r tool_manager = Some tm ->
    tool_phase tm (rn + 1) r ms tl ms1 ->
    (rn + 1 < max_rounds)%Z ->
    rounds_run (rn :: rs) ms
      (round_call ms (Returned r) :: EvRound (rn + 1) (tool_calls (message r))
         :: tl ++ [check_call ms1 (Raised e)])
      (Raised e)
| run_check_answer rn rs ms r tm tl ms1 d :
    wants_tools r tool_manager = Some tm ->
    tool_phase tm (rn + 1) r ms tl ms1 ->
    (rn + 1 < max_rounds)%Z ->
    String.eqb (finish_reason d) "tool_calls" = false ->
    truthy_str (content (message d)) = true ->
    rounds_run (rn :: rs) ms
      (round_call ms (Returned r) :: EvRound (rn + 1) (tool_calls (message r))
         :: tl ++ [check_call ms1 (Returned d)])
      (Returned (content (message d)))
| run_check_empty rn rs ms r tm tl ms1 d res :
    wants_tools r tool_manager = Some tm ->
    tool_phase tm (rn + 1) r ms tl ms1 ->
    (rn + 1 < max_rounds)%Z ->
    String.eqb (finish_reason d) "tool_calls" = false ->
    truthy_str (content (message d)) = false ->
    rounds_run (rn :: rs) ms
      (round_call ms (Returned r) :: EvRound (rn + 1) (tool_calls (message r))
         :: tl ++ [check_call ms1 (Returned d); final_call ms1 res])
      (answer_of res)
| run_continue rn rs ms r tm tl ms1 d log out :
    wants_tools r tool_manager = Some tm ->
    tool_phase tm (rn + 1) r ms tl ms1 ->
    (rn + 1 < max_rounds)%Z ->
    String.eqb (finish_reason d) "tool_calls" = true ->
    rounds_run rs (ms1 ++ [Obj (message d)]) log out ->
    rounds_run (rn :: rs) ms
      (round_call ms (Returned r) :: EvRound (rn + 1) (tool_calls (message r))
         :: tl ++ check_call ms1 (Returned d) :: log)
      out.

Lemma get_final_response_run ms w :
  exists w' res,
    _get_final_response ms w = (w', [final_call ms res], answer_of res).
Proof.
  unfold _get_final_response, bind, client_create, ret, final_call.
  destruct (create (final_params ms) w) as [w1 [r|e]]; simpl.
  - exists w1, (Returned r); reflexivity.
  - exists w1, (Raised e); reflexivity.
Qed.

Lemma round_loop_run rs :
  forall ms w w' log out,
    round_loop tools tool_manager max_rounds rs ms w = (w', log, out) ->
    rounds_run rs ms log out.
Proof.
  induction rs as [|rn rs IH]; intros ms w w' log out H.
  - simpl in H.
    destruct (get_final_response_run ms w) as (w1 & res & E).
    rewrite E in H; inversion H; subst. constructor.
  - simpl in H. unfold bind at 1, _make_api_call, client_create in H.
    fold (round_call ms) in H.
    destruct (create (api_params ms tools) w) as [w1 [r|e]];
      [| inversion H; subst; constructor].
    destruct (wants_tools r tool_manager) as [tm|] eqn:Hw;
      [| unfold ret in H; inversion H; subst; simpl; constructor; assumption].
    unfold bind at 1, _handle_tool_execution_round, bind at 1, mark_round in H.
    unfold bind at 1 in H.
    destruct (tool_loop_run tm (rn + 1) (tool_calls (message r))
                (ms ++ [Obj (message r)]) w1) as (w2 & tl & results & Et & Hr).
    rewrite Et in H.
    assert (Hp : tool_phase tm (rn + 1) r ms tl (ms ++ [Obj (message r)] ++ results))
      by (exists w1, w2, results; split; [assumption | reflexivity]).
    rewrite <- app_assoc in H.
    set (ms1 := ms ++ [Obj (message r)] ++ results) in *.
    destruct (rn + 1 >=? max_rounds)%Z eqn:Hge.
    + unfold ret at 1 in H. simpl in H.
      destruct (get_final_response_run ms1 w2) as (w3 & res & E).
      rewrite E in H. inversion H; subst.
      rewrite app_nil_r. eapply run_limit; eauto. lia.
    + assert (Hlt : (rn + 1 < max_rounds)%Z) by lia.
      unfold _should_continue_to_next_round, bind at 1, client_create in H.
      fold (check_call ms1) in H.
      destruct (create (decision_params ms1) w2) as [w3 [d|e]].
      * destruct (String.eqb (finish_reason d) "tool_calls") eqn:Hd;
          unfold ret at 1 in H; simpl in H.
        -- destruct (round_loop tools tool_manager max_rounds rs
                       (ms1 ++ [Obj (message d)]) w3) as [[w4 l4] o4] eqn:El.
           inversion H; subst.
           rewrite <- app_assoc. eapply run_continue; eauto.
        -- destruct (truthy_str (content (message d))) eqn:Ht.
           ++ unfold ret in H. inversion H; subst.
              rewrite <- ?app_assoc; simpl.
              eapply run_check_answer; eauto.
           ++ destruct (get_final_response_run ms1 w3) as (w4 & res & E).
              rewrite E in H. inversion H; subst.
              rewrite <- ?app_assoc; simpl.
              eapply run_check_empty; eauto.
      * simpl in H. inversion H; subst.
        rewrite <- ?app_assoc; simpl.
        eapply run_check_raised; eauto.
Qed.

Lemma tool_phase_events tm cr r ms tl ms1 :
  tool_phase tm cr r ms tl ms1 -> forallb (is_exec cr) tl = true.
Proof. intros (w & w' & results & H & _). eapply tools_run_events; eauto. Qed.

(** Tools are executed in the rounds the loop passes through, nowhere else. *)
Lemma rounds_run_exec_rounds rs ms log out :
  rounds_run rs ms log out ->
  incl (flat_map exec_round log) (map (fun rn => rn + 1)%Z rs).
Proof.
  induction 1;
    try match goal with
        | Hp : tool_phase _ _ _ _ _ _ |- _ =>
            apply tool_phase_events, exec_only_rounds in Hp;
            rename Hp into Htl
        end;
    simpl; rewrite ?flat_map_app; simpl; rewrite ?app_nil_r;
    try apply incl_nil_l.
  1-4: intros x Hx; left; specialize (Htl x Hx); simpl in Htl; tauto.
  apply incl_app.
  - intros x Hx; left; specialize (Htl x Hx); simpl in Htl; tauto.
  - apply incl_tl; assumption.
Qed.

(** No round costs more than two model calls. *)
Lemma rounds_run_model_calls rs ms log out :
  rounds_run rs ms log out ->
  counts_up_to max_rounds rs -> rs <> [] ->
  (model_calls log <= 2 * List.length rs)%nat.
Proof.
  unfold model_calls.
  induction 1; intros Hc Hne;
    try match goal with
        | Hp : tool_phase _ _ _ _ _ _ |- _ =>
            apply tool_phase_events in Hp;
            apply (exec_only_filter is_create) in Hp; [| reflexivity];
            rename Hp into Htl
        end;
    simpl; rewrite ?filter_app, ?Htl; simpl; try lia.
  - congruence.
  - destruct (counts_up_more _ _ _ Hc) as [Hne' _]; [assumption|].
    destruct rs; [congruence | simpl; lia].
  - destruct (counts_up_more _ _ _ Hc) as [Hne' Hc']; [assumption|].
    specialize (IHrounds_run Hc' Hne'). lia.
Qed.

(** Each pass through the loop body starts at most one round of tool calls. *)
Lemma rounds_run_started rs ms log out :
  rounds_run rs ms log out ->
  (rounds_started log <= List.length rs)%nat.
Proof.
  unfold rounds_started.
  induction 1;
    try match goal with
        | Hp : tool_phase _ _ _ _ _ _ |- _ =>
            apply tool_phase_events in Hp;
            apply (exec_only_filter is_round_start) in Hp; [| reflexivity];
            rename Hp into Htl
        end;
    simpl; rewrite ?filter_app, ?Htl; simpl; lia.
Qed.

(** The run ends with a model call, whose text (or failure) is the outcome. *)
Lemma rounds_run_last rs ms log out :
  rounds_run rs ms log out ->
  exists pre site p res,
    log = pre ++ [EvCreate site p res] /\ out = answer_of res.
Proof.
  induction 1.
  - exists []; do 3 eexists; split; reflexivity.
  - exists []; do 3 eexists; split; reflexivity.
  - exists [], MakeApiCall, (api_params ms tools), (Returned r);
      split; reflexivity.
  - eexists (_ :: _ :: tl); do 3 eexists; split; reflexivity.
  - eexists (_ :: _ :: tl); do 3 eexists; split; reflexivity.
  - eexists (_ :: _ :: tl), _, _, (Returned d); split; reflexivity.
  - eexists (_ :: _ :: tl ++ [_]); do 3 eexists; split;
      [simpl; rewrite <- app_assoc|]; reflexivity.
  - destruct IHrounds_run as (pre & site & p & res & -> & ->).
    eexists (_ :: _ :: tl ++ _ :: pre); do 3 eexists; split;
      [simpl; rewrite <- app_assoc|]; reflexivity.
Qed.

Lemma wants_tools_requested r tm :
  wants_tools r tool_manager = Some tm ->
  String.eqb (finish_reason r) "tool_calls" = true.
Proof.
  unfold wants_tools.
  destruct (String.eqb (finish_reason r) "tool_calls"); [reflexivity | discriminate].
Qed.

Lemma rounds_run_head rs ms log out :
  rounds_run rs ms log out -> rs <> [] ->
  exists res post, log = round_call ms res :: post.
Proof.
  induction 1; intros Hne; try congruence; do 2 eexists; reflexivity.
Qed.

(** Every continuation check is sent without tools. *)
Lemma rounds_run_hides_tools rs ms log out :
  rounds_run rs ms log out -> forallb hides_tools log = true.
Proof.
  induction 1;
    try match goal with
        | Hp : tool_phase _ _ _ _ _ _ |- _ =>
            apply tool_phase_events in Hp;
            apply (exec_only_forallb hides_tools) in Hp; [| reflexivity];
            rename Hp into Htl
        end;
    simpl; rewrite ?forallb_app, ?Htl; simpl; auto.
Qed.

(** When the synthesis call is made. *)
Lemma rounds_run_final_synthesis rs ms log out :
  rounds_run rs ms log out ->
  counts_up_to max_rounds rs -> rs <> [] ->
  final_synthesis_called log
  = round_executed max_rounds log || check_answered_empty log.
Proof.
  unfold final_synthesis_called, round_executed, check_answered_empty.
  induction 1; intros Hc Hne;
    try match goal with
        | Hp : tool_phase _ _ _ _ _ _ |- _ =>
            apply tool_phase_events in Hp;
            pose proof (exec_only_existsb is_final_call _ _
                          (fun _ _ _ _ => eq_refl) Hp) as Hf;
            pose proof (exec_only_existsb (is_round max_rounds) _ _
                          (fun _ _ _ _ => eq_refl) Hp) as Hr;
            pose proof (exec_only_existsb is_empty_answer _ _
                          (fun _ _ _ _ => eq_refl) Hp) as He
        end;
    try match goal with
        | Hd : String.eqb (finish_reason _) _ = _ |- _ => rename Hd into Hreq
        end;
    try match goal with
        | Ht : truthy_str _ = _ |- _ => rename Ht into Htext
        end;
    try congruence;
    simpl; rewrite ?existsb_app, ?Hf, ?Hr, ?He; simpl;
    try reflexivity.
  - apply counts_up_head in Hc.
    replace (rn + 1 =? max_rounds)%Z with true
      by (symmetry; apply Z.eqb_eq; lia).
    reflexivity.
  - replace (rn + 1 =? max_rounds)%Z with false
      by (symmetry; apply Z.eqb_neq; lia).
    reflexivity.
  - replace (rn + 1 =? max_rounds)%Z with false
      by (symmetry; apply Z.eqb_neq; lia).
    rewrite Hreq, Htext. reflexivity.
  - replace (rn + 1 =? max_rounds)%Z with false
      by (symmetry; apply Z.eqb_neq; lia).
    rewrite Hreq, Htext. reflexivity.
  - replace (rn + 1 =? max_rounds)%Z with false
      by (symmetry; apply Z.eqb_neq; lia).
    rewrite Hreq. simpl.
    destruct (counts_up_more _ _ _ Hc) as [Hne' Hc']; [assumption|].
    apply IHrounds_run; assumption.
Qed.

(** Walking down a log of the shape the rules give. *)
Ltac suffix_walk :=
  unfold round_call, check_call, final_call;
  repeat first
    [ apply each_suffix_nil
    | apply each_suffix_cons
    | apply each_suffix_app ].

Ltac exec_event Htl :=
  let ev := fresh "ev" in
  let post := fresh "post" in
  let Hin := fresh "Hin" in
  intros ev post Hin;
  destruct (exec_only_In _ _ _ Htl Hin) as (? & ? & ? & ->).

(** A model response of a round that asks for no tool ends the query. *)
Definition direct_answer_ends (out : Result (option string))
    (ev : Event) (post : list Event) : Prop :=
  forall p r,
    ev = EvCreate MakeApiCall p (Returned r) ->
    String.eqb (finish_reason r) "tool_calls" = false ->
    post = [] /\ out = Returned (content (message r)).

Lemma rounds_run_direct_answer rs ms log out :
  rounds_run rs ms log out -> each_suffix (direct_answer_ends out) log.
Proof.
  induction 1;
    try match goal with
        | Hp : tool_phase _ _ _ _ _ _ |- _ =>
            apply tool_phase_events in Hp; rename Hp into Htl
        end;
    try match goal with
        | Hw : wants_tools _ _ = Some _ |- _ =>
            apply wants_tools_requested in Hw; rename Hw into Hreq
        end;
    suffix_walk; try assumption; try exec_event Htl;
    intros p0 r0 E Hno; try discriminate;
    inversion E; subst; try congruence.
  split; reflexivity.
Qed.

(** After a continuation check that asks for tools, the next thing that
    happens is the model call of the following round, made on the
    conversation extended by the check's message. *)
Definition fresh_call_follows (ev : Event) (post : list Event) : Prop :=
  forall p d,
    ev = EvCreate ShouldContinue p (Returned d) ->
    String.eqb (finish_reason d) "tool_calls" = true ->
    exists res post',
      post = round_call (removelast (p_messages p) ++ [Obj (message d)]) res
               :: post'.

Lemma rounds_run_fresh_call rs ms log out :
  rounds_run rs ms log out ->
  counts_up_to max_rounds rs ->
  each_suffix fresh_call_follows log.
Proof.
  induction 1; intros Hc;
    try match goal with
        | Hp : tool_phase _ _ _ _ _ _ |- _ =>
            apply tool_phase_events in Hp; rename Hp into Htl
        end;
    try match goal with
        | Hlt : (_ + 1 < max_rounds)%Z |- _ =>
            destruct (counts_up_more _ _ _ Hc Hlt) as [Hne' Hc']
        end;
    suffix_walk; auto; try exec_event Htl;
    intros p0 d0 E Hyes; try discriminate;
    inversion E; subst; try congruence.
  simpl. rewrite removelast_last.
  eapply rounds_run_head; eauto.
Qed.

(** Once the tool calls of round [max_rounds] are started, all that follows
    are that round's tool executions and then the synthesis call, sent with
    the conversation extended by one result per requested call; its response
    is the outcome. *)
Definition after_last_round (out : Result (option string))
    (ev : Event) (post : list Event) : Prop :=
  forall tcs,
    ev = EvRound max_rounds tcs ->
    exists tl history results res,
      post = tl ++ [final_call (history ++ results) res]
      /\ forallb (is_exec max_rounds) tl = true
      /\ map result_id results = map (fun tc => Some (tc_id tc)) tcs
      /\ out = answer_of res.

Lemma rounds_run_after_last_round rs ms log out :
  rounds_run rs ms log out ->
  counts_up_to max_rounds rs ->
  each_suffix (after_last_round out) log.
Proof.
  induction 1; intros Hc;
    try match goal with
        | Hp : tool_phase _ _ _ _ _ _ |- _ =>
            pose proof (tool_phase_events _ _ _ _ _ _ Hp) as Htl;
            destruct Hp as (w0 & w0' & results & Hres & ->);
            apply tools_run_results in Hres
        end;
    try match goal with
        | Hlt : (_ + 1 < max_rounds)%Z |- _ =>
            destruct (counts_up_more _ _ _ Hc Hlt) as [Hne' Hc']
        end;
    suffix_walk; auto; try exec_event Htl;
    intros tcs E; try discriminate;
    inversion E; subst; try lia.
  exists tl, (ms ++ [Obj (message r)]), results, res.
  rewrite <- app_assoc. auto.
Qed.

(** The synthesis call is sent without tools, nothing follows it, and its
    response is the outcome. *)
Definition synthesis_is_last (out : Result (option string))
    (ev : Event) (post : list Event) : Prop :=
  forall p res,
    ev = EvCreate GetFinalResponse p res ->
    post = [] /\ out = answer_of res
    /\ p_tools p = None /\ p_tool_choice p = None.

Lemma rounds_run_synthesis_last rs ms log out :
  rounds_run rs ms log out -> each_suffix (synthesis_is_last out) log.
Proof.
  induction 1;
    try match goal with
        | Hp : tool_phase _ _ _ _ _ _ |- _ =>
            apply tool_phase_events in Hp; rename Hp into Htl
        end;
    suffix_walk; try assumption; try exec_event Htl;
    intros p0 res0 E; try discriminate;
    inversion E; subst; repeat split; reflexivity.
Qed.

End Run.

Lemma generate_response_run query history tools tool_manager max_rounds w :
  rounds_run tools tool_manager max_rounds (range max_rounds)
    (initial_messages query history)
    (log_of (generate_response query history tools tool_manager max_rounds w))
    (outcome_of (generate_response query history tools tool_manager max_rounds w)).
Proof.
  unfold generate_response.
  destruct (round_loop tools tool_manager max_rounds (range max_rounds)
              (initial_messages query history) w) as [[w' log] out] eqn:E.
  apply round_loop_run in E. exact E.
Qed.

(** *** The round bound *)


(** *** The synthesis call *)

(** C2, as the code has it.  For [max_rounds = N >= 1] the synthesis call is
    made exactly when the tool calls of round [N] have been run, or a
    continuation check before the limit came back with neither a tool
    request nor any text.  In the first case nothing but that round's tool
    executions comes between the start of the round and the synthesis call:
    no continuation check is made, and the synthesis call carries the
    conversation with one result per requested call.  In either case the
    synthesis call is sent without tools, is the last call made, and its
    response is what [generate_response] returns. *)
Theorem final_synthesis_exactly_when
    query history tools tool_manager (N : Z) (w : World) :
  (1 <= N)%Z ->
  let run := generate_response query history tools tool_manager N w in
  final_synthesis_called (log_of run)
    = round_executed N (log_of run) || check_answered_empty (log_of run)
  /\ (forall pre tcs post,
        log_of run = pre ++ EvRound N tcs :: post ->
        exists tl history results res,
          post = tl ++ [EvCreate GetFinalResponse
                          (final_params (history ++ results)) res]
          /\ forallb (is_exec N) tl = true
          /\ map result_id results = map (fun tc => Some (tc_id tc)) tcs
          /\ p_tools (final_params (history ++ results)) = None
          /\ outcome_of run = answer_of res)
  /\ (forall pre p res post,
        log_of run = pre ++ EvCreate GetFinalResponse p res :: post ->
        post = [] /\ outcome_of run = answer_of res
        /\ p_tools p = None /\ p_tool_choice p = None).
Proof.
  intros HN run.
  pose proof (generate_response_run query history tools tool_manager N w) as Hrun.
  fold run in Hrun. split; [|split].
  - eapply rounds_run_final_synthesis; eauto.
    + apply range_counts_up.
    + apply range_nonempty; assumption.
  - intros pre tcs post Hlog.
    pose proof (rounds_run_after_last_round _ _ _ _ _ _ _ Hrun
                  (range_counts_up N)) as Hs.
    destruct (Hs pre _ post Hlog tcs eq_refl)
      as (tl & hist & results & res & H1 & H2 & H3 & H4).
    exists tl, hist, results, res. auto.
  - intros pre p res post Hlog.
    pose proof (rounds_run_synthesis_last _ _ _ _ _ _ _ Hrun) as Hs.
    exact (Hs pre _ post Hlog p res eq_refl).
Qed.

(** *** Continuing to the next round *)

(** C3, as the code has it.  Whenever a continuation check comes back with a
    tool request, the next call the orchestrator makes is a fresh model call
    for the following round, with the tools advertised as in every round,
    on the conversation extended by the message of the check; the tool calls
    the check asked for are not run at that point. *)
Theorem continuation_starts_fresh_round
    query history tools tool_manager (N : Z) (w : World) pre p d post :
  log_of (generate_response query history tools tool_manager N w)
    = pre ++ EvCreate ShouldContinue p (Returned d) :: post ->
  String.eqb (finish_reason d) "tool_calls" = true ->
  exists res post',
    post = EvCreate MakeApiCall
             (api_params (removelast (p_messages p) ++ [Obj (message d)]) tools)
             res :: post'.
Proof.
  intros Hlog Hd.
  pose proof (generate_response_run query history tools tool_manager N w) as Hrun.
  pose proof (rounds_run_fresh_call _ _ _ _ _ _ _ Hrun (range_counts_up N)) as Hs.
  exact (Hs pre _ post Hlog p d eq_refl Hd).
Qed.

(** *** The continuation check *)

(** In every run, every continuation check is sent without [tools] and
    without [tool_choice]. *)
Lemma continuation_checks_hide_tools
    query history tools tool_manager (N : Z) (w : World) :
  forallb hides_tools
    (log_of (generate_response query history tools tool_manager N w)) = true.
Proof.
  eapply rounds_run_hides_tools. apply generate_response_run.
Qed.

(** *** One round of tool calls *)

(** One call of [_handle_tool_execution_round]: the requested calls are run
    in order, one result each is appended after the response's message, and
    the only exception that can leave the method is that of the continuation
    check's own model call. *)
Lemma handle_round_results
    response messages (tm : ToolManager) (current_round max_rounds : Z)
    (w : World) :
  exists w1 tl results,
    tools_run tm current_round (tool_calls (message response)) w w1 tl results
    /\ map result_id results
       = map (fun tc => Some (tc_id tc)) (tool_calls (message response))
    /\ exists w' tail out,
         _handle_tool_execution_round response messages tm
           current_round max_rounds w
         = (w', EvRound current_round (tool_calls (message response))
                  :: tl ++ tail, out)
         /\ (forall messages' decision,
               out = Returned (messages', decision) ->
               exists extra,
                 messages'
                 = messages ++ [Obj (message response)] ++ results ++ extra
                 /\ forall m, In m extra -> result_id m = None)
         /\ (forall e,
               out = Raised e ->
               exists p, tail = [EvCreate ShouldContinue p (Raised e)]).
Proof.
  destruct (tool_loop_run tm current_round (tool_calls (message response))
              (messages ++ [Obj (message response)]) w)
    as (w1 & tl & results & Et & Hr).
  exists w1, tl, results. split; [exact Hr|].
  split; [eapply tools_run_results; eauto|].
  unfold _handle_tool_execution_round, bind at 1, mark_round.
  unfold bind at 1. rewrite Et.
  destruct (current_round >=? max_rounds)%Z.
  - exists w1, [], (Returned ((messages ++ [Obj (message response)]) ++ results,
                              (false, None))).
    split; [reflexivity|]. split.
    + intros m' dcs E; inversion E; subst. exists [].
      rewrite app_nil_r, <- app_assoc. split; [reflexivity | intros ? []].
    + intros e E; discriminate.
  - unfold _should_continue_to_next_round, bind, client_create.
    destruct (create _ w1) as [w2 [d|e]].
    + destruct (String.eqb (finish_reason d) "tool_calls"); unfold ret;
        do 3 eexists; (split; [reflexivity|]); split;
        try (intros e E; discriminate);
        intros m' dcs E; inversion E; subst.
      * exists [Obj (message d)]. rewrite <- !app_assoc.
        split; [reflexivity|]. intros m [<-|[]]; reflexivity.
      * exists []. rewrite app_nil_r, <- app_assoc.
        split; [reflexivity | intros ? []].
    + do 3 eexists; (split; [reflexivity|]); split.
      * intros m' dcs E; discriminate.
      * intros e' E; inversion E; subst. eexists; reflexivity.
Qed.

Lemma wants_tools_some r (tool_manager : option ToolManager) tm :
  wants_tools r tool_manager = Some tm -> tool_manager = Some tm.
Proof.
  unfold wants_tools.
  destruct (String.eqb (finish_reason r) "tool_calls"); [auto | discriminate].
Qed.

(** In a run, a started round is carried through: all its calls are run and
    a model call follows, whose messages hold the results. *)
Definition round_completes (tool_manager : option ToolManager)
    (ev : Event) (post : list Event) : Prop :=
  forall cr tcs,
    ev = EvRound cr tcs ->
    exists tm w0 w1 tl results site p res post' history prompt,
      tool_manager = Some tm
      /\ tools_run tm cr tcs w0 w1 tl results
      /\ post = tl ++ EvCreate site p res :: post'
      /\ p_messages p = history ++ results ++ prompt.

Lemma round_completes_with tool_manager tm cr r ms tl ms1 site p res post' prompt :
  tool_manager = Some tm ->
  tool_phase tm cr r ms tl ms1 ->
  p_messages p = ms1 ++ prompt ->
  round_completes tool_manager (EvRound cr (tool_calls (message r)))
    (tl ++ EvCreate site p res :: post').
Proof.
  intros Htm (w0 & w1 & results & Hrun & ->) Hp c tcs E.
  inversion E; subst.
  exists tm, w0, w1, tl, results, site, p, res, post',
    (ms ++ [Obj (message r)]), prompt.
  repeat split; try assumption.
  rewrite Hp, <- !app_assoc. reflexivity.
Qed.

Lemma rounds_run_round_completes tools tool_manager max_rounds rs ms log out :
  rounds_run tools tool_manager max_rounds rs ms log out ->
  each_suffix (round_completes tool_manager) log.
Proof.
  induction 1;
    try match goal with
        | Hw : wants_tools _ _ = Some _ |- _ =>
            apply wants_tools_some in Hw; rename Hw into Hsome
        end;
    try match goal with
        | Hp : tool_phase _ _ _ _ _ _ |- _ =>
            pose proof (tool_phase_events _ _ _ _ _ _ Hp) as Htl
        end;
    unfold round_call, check_call, final_call;
    repeat first
      [ apply each_suffix_nil
      | apply each_suffix_cons
      | apply each_suffix_app ];
    try assumption;
    try (intros ev0 post0 Hin c tcs E;
         destruct (exec_only_In _ _ _ Htl Hin) as (? & ? & ? & ->);
         discriminate);
    try (intros c tcs E; discriminate);
    try (eapply round_completes_with; eauto; reflexivity).
Qed.


(** *** A response without a tool request *)

(** C6.  When the model's response of a round does not request tools, that
    model call is the last thing the orchestrator does, and the text of the
    response is returned as it is. *)
Theorem direct_answer_returned_verbatim
    query history tools tool_manager (N : Z) (w : World) pre p r post :
  log_of (generate_response query history tools tool_manager N w)
    = pre ++ EvCreate MakeApiCall p (Returned r) :: post ->
  String.eqb (finish_reason r) "tool_calls" = false ->
  post = []
  /\ outcome_of (generate_response query history tools tool_manager N w)
     = Returned (content (message r)).
Proof.
  intros Hlog Hno.
  pose proof (generate_response_run query history tools tool_manager N w) as Hrun.
  pose proof (rounds_run_direct_answer _ _ _ _ _ _ _ Hrun) as Hs.
  exact (Hs pre _ post Hlog p r eq_refl Hno).
Qed.

(** *** Without a tool manager *)

Lemma wants_tools_none r : wants_tools r None = None.
Proof.
  unfold wants_tools.
  destruct (String.eqb (finish_reason r) "tool_calls"); reflexivity.
Qed.

Lemma rounds_run_no_manager tools max_rounds rs ms log out :
  rounds_run tools None max_rounds rs ms log out ->
  forallb is_create log = true.
Proof.
  induction 1;
    try match goal with
        | Hw : wants_tools _ None = Some _ |- _ =>
            rewrite wants_tools_none in Hw; discriminate
        end;
    reflexivity.
Qed.

(** C10.  Tools are run only for a response that requests them and with a
    tool manager at hand.  With [tool_manager = None] the log of a call
    holds model calls only; and when the first response arrives, whatever
    its [finish_reason] (also [tool_calls]), its [content] (possibly [None])
    is returned at once: one model call, no tool run, nothing raised. *)
Theorem no_tool_manager_returns_content
    query history tools (N : Z) (w w1 : World) r :
  (1 <= N)%Z ->
  create (api_params (initial_messages query history) tools) w
    = (w1, Returned r) ->
  forallb is_create (log_of (generate_response query history tools None N w))
    = true
  /\ generate_response query history tools None N w
     = (w1,
        [EvCreate MakeApiCall
           (api_params (initial_messages query history) tools) (Returned r)],
        Returned (content (message r))).
Proof.
  intros HN Hc. split.
  - eapply rounds_run_no_manager. apply generate_response_run.
  - unfold generate_response.
    destruct (range N) as [|rn rest] eqn:E;
      [exfalso; exact (range_nonempty N HN E)|].
    simpl. unfold bind, _make_api_call, client_create.
    rewrite Hc, wants_tools_none. reflexivity.
Qed.

(* ----------------------------------------------------------------- *)
(** *** Further properties of the round loop *)

Lemma exec_only_Forall (P : Event -> Prop) cr tl :
  (forall c n k r, P (EvExecuteTool c n k r)) ->
  forallb (is_exec cr) tl = true -> Forall P tl.
Proof.
  intros HP H. apply Forall_forall. intros ev Hin.
  destruct (exec_only_In _ _ _ H Hin) as (n & k & r & ->). apply HP.
Qed.

(** What a model call is sent with: the generator's model, temperature and
    token limit on every call; the converted tools and [tool_choice] on the
    calls of [_make_api_call] when the tool list is not empty, and on no
    other call. *)
Definition sent_as_configured (tools : option (list AnthropicTool))
    (ev : Event) : Prop :=
  match ev with
  | EvCreate site p _ =>
      p_model p = self_model
      /\ p_temperature p = 0%Z
      /\ p_max_tokens p = 800%Z
      /\ match site with
         | MakeApiCall =>
             if truthy_list tools then
               p_tools p = Some (_convert_tools_to_openai_format (get tools []))
               /\ p_tool_choice p = Some "auto"%string
             else p_tools p = None /\ p_tool_choice p = None
         | _ => p_tools p = None /\ p_tool_choice p = None
         end
  | _ => True
  end.

Lemma round_call_configured tools ms res :
  sent_as_configured tools (round_call tools ms res).
Proof.
  unfold round_call, sent_as_configured, api_params.
  destruct (truthy_list tools); simpl; auto.
Qed.

Lemma rounds_run_configured tools tool_manager max_rounds rs ms log out :
  rounds_run tools tool_manager max_rounds rs ms log out ->
  Forall (sent_as_configured tools) log.
Proof.
  induction 1;
    try match goal with
        | Hp : tool_phase _ _ _ _ _ _ |- _ =>
            apply tool_phase_events in Hp;
            apply (exec_only_Forall (sent_as_configured tools)) in Hp;
              [| intros; exact I];
            rename Hp into Htl
        end;
    repeat first
      [ apply Forall_nil
      | apply Forall_cons
      | apply Forall_app; split
      | assumption
      | apply round_call_configured
      | exact I
      | (simpl; tauto) ].
Qed.

(** X1.  Every model call of a run is sent with the generator's parameters, and
    the tools are advertised by the round calls only, and only when the tool
    list is not empty. *)
Theorem every_call_sent_as_configured
    query history tools tool_manager (N : Z) (w : World) :
  Forall (sent_as_configured tools)
    (log_of (generate_response query history tools tool_manager N w)).
Proof.
  eapply rounds_run_configured. apply generate_response_run.
Qed.

(** X2.  With a round limit of zero or less the loop body never runs: the only
    thing [generate_response] does is the synthesis call on the system
    message and the query, whose text it returns. *)
Theorem no_rounds_only_synthesis
    query history tools tool_manager (N : Z) (w : World) :
  (N <= 0)%Z ->
  exists res,
    log_of (generate_response query history tools tool_manager N w)
    = [EvCreate GetFinalResponse
         (final_params (initial_messages query history)) res]
    /\ outcome_of (generate_response query history tools tool_manager N w)
       = answer_of res.
Proof.
  intros HN. unfold generate_response, range.
  replace (Z.to_nat N) with 0%nat by lia. simpl.
  destruct (get_final_response_run (initial_messages query history) w)
    as (w' & res & E).
  rewrite E. exists res. split; reflexivity.
Qed.

Definition is_check (ev : Event) : bool :=
  match ev with
  | EvCreate ShouldContinue _ _ => true
  | _ => false
  end.

(** How many continuation checks were made. *)
Definition continuation_checks (log : list Event) : nat :=
  List.length (filter is_check log).

Lemma rounds_run_checks tools tool_manager max_rounds rs ms log out :
  rounds_run tools tool_manager max_rounds rs ms log out ->
  counts_up_to max_rounds rs ->
  (continuation_checks log <= List.length rs - 1)%nat.
Proof.
  unfold continuation_checks.
  induction 1; intros Hc;
    try match goal with
        | Hp : tool_phase _ _ _ _ _ _ |- _ =>
            apply tool_phase_events in Hp;
            apply (exec_only_filter is_check) in Hp; [| reflexivity];
            rename Hp into Htl
        end;
    try match goal with
        | Hlt : (_ + 1 < max_rounds)%Z |- _ =>
            destruct (counts_up_more _ _ _ Hc Hlt) as [Hne' Hc']
        end;
    simpl; rewrite ?filter_app, ?Htl; simpl; try lia.
  - destruct rs; [congruence | simpl; lia].
  - destruct rs; [congruence | simpl; lia].
  - destruct rs; [congruence | simpl; lia].
  - specialize (IHrounds_run Hc').
    destruct rs; [congruence | simpl in *; lia].
Qed.

(** X3.  The model is asked whether to continue at most [max_rounds - 1] times;
    with [max_rounds = 1] it is never asked. *)
Theorem continuation_checks_bound
    query history tools tool_manager (N : Z) (w : World) :
  (continuation_checks
     (log_of (generate_response query history tools tool_manager N w))
   <= Z.to_nat N - 1)%nat.
Proof.
  rewrite <- (range_length N).
  eapply rounds_run_checks; [apply generate_response_run | apply range_counts_up].
Qed.

(** *** Which calls reach the tool manager *)

Definition parses (tc : ToolCall) : bool :=
  match json_loads (tc_function_arguments tc) with
  | Returned _ => true
  | Raised _ => false
  end.

Definition executed_name (ev : Event) : list string :=
  match ev with
  | EvExecuteTool _ name _ _ => [name]
  | _ => []
  end.

Lemma tools_run_executed tm cr tcs w w' log results :
  tools_run tm cr tcs w w' log results ->
  flat_map executed_name log = map tc_function_name (filter parses tcs).
Proof.
  induction 1 as [| tc rest w w1 w2 l1 l2 s results Ho _ IH]; [reflexivity|].
  rewrite flat_map_app, IH. simpl. unfold parses at 2.
  destruct Ho as [w e Hj | w w' kwargs s Hj Ht | w w' kwargs e Hj Ht];
    rewrite Hj; reflexivity.
Qed.

(** X4.  In a round, the tool manager is called for exactly the requested calls
    whose payload parses, in the order requested; a call with a malformed
    payload never reaches it (and still gets its result, by the theorem on
    the results of a round). *)
Theorem malformed_calls_never_executed
    (tm : ToolManager) (current_round : Z) tcs messages (w : World) :
  flat_map executed_name (log_of (tool_loop tm current_round tcs messages w))
  = map tc_function_name (filter parses tcs).
Proof.
  destruct (tool_loop_run tm current_round tcs messages w)
    as (w' & log & results & E & Hrun).
  rewrite E. simpl. eapply tools_run_executed; eauto.
Qed.

(** *** The conversation sent to the model *)

(** A message of the exchange with the model: a response's message or a tool
    result, as opposed to a role/content entry written by the generator. *)
Definition is_exchange (m : Message) : bool :=
  match m with
  | Dict _ _ => false
  | _ => true
  end.

(** The instruction a method adds to a copy of the conversation. *)
Definition prompt_of (site : CallSite) : list Message :=
  match site with
  | MakeApiCall => []
  | ShouldContinue => [Dict "user" CONTINUE_PROMPT]
  | GetFinalResponse => [Dict "user" FINAL_PROMPT]
  end.

(** The conversation of a call: its messages without that instruction. *)
Definition conversation (site : CallSite) (p : ApiParams) : list Message :=
  firstn (List.length (p_messages p) - List.length (prompt_of site))
    (p_messages p).

Definition carries (ms : list Message) (ev : Event) : Prop :=
  match ev with
  | EvCreate site p _ =>
      exists exchange,
        p_messages p = ms ++ exchange ++ prompt_of site
        /\ forallb is_exchange exchange = true
  | _ => True
  end.

Lemma api_params_messages ms tools : p_messages (api_params ms tools) = ms.
Proof. unfold api_params. destruct (truthy_list tools); reflexivity. Qed.

Lemma tools_run_exchange tm cr tcs w w' log results :
  tools_run tm cr tcs w w' log results -> forallb is_exchange results = true.
Proof. induction 1; simpl; auto. Qed.

Lemma carries_more ms ext ev :
  forallb is_exchange ext = true -> carries (ms ++ ext) ev -> carries ms ev.
Proof.
  intros Hext. destruct ev as [site p res| |]; simpl; auto.
  intros (exchange & E & Hx). exists (ext ++ exchange). split.
  - rewrite E, <- !app_assoc. reflexivity.
  - rewrite forallb_app, Hext, Hx. reflexivity.
Qed.

Lemma carries_round_call tools ms res : carries ms (round_call tools ms res).
Proof.
  exists []. rewrite api_params_messages, !app_nil_r. auto.
Qed.

Lemma carries_check_call ms ext res :
  forallb is_exchange ext = true -> carries ms (check_call (ms ++ ext) res).
Proof.
  intros H. exists ext. split; [|assumption].
  simpl. rewrite <- app_assoc. reflexivity.
Qed.

Lemma carries_final_call ms ext res :
  forallb is_exchange ext = true -> carries ms (final_call (ms ++ ext) res).
Proof.
  intros H. exists ext. split; [|assumption].
  simpl. rewrite <- app_assoc. reflexivity.
Qed.

Lemma rounds_run_carries tools tool_manager max_rounds rs ms log out :
  rounds_run tools tool_manager max_rounds rs ms log out ->
  Forall (carries ms) log.
Proof.
  induction 1;
    try match goal with
        | Hp : tool_phase _ _ _ _ _ _ |- _ =>
            pose proof (tool_phase_events _ _ _ _ _ _ Hp) as Htl;
            apply (exec_only_Forall (carries ms)) in Htl; [| intros; exact I];
            destruct Hp as (w0 & w0' & results & Hres & ->);
            apply tools_run_exchange in Hres
        end;
    repeat first
      [ apply Forall_nil
      | apply Forall_cons
      | apply Forall_app; split
      | assumption
      | apply carries_round_call
      | apply carries_check_call
      | apply carries_final_call
      | exact I
      | (simpl; assumption) ].
  - exists []. split; reflexivity.
  - eapply Forall_impl; [| exact IHrounds_run].
    intros ev Hev. rewrite <- app_assoc in Hev.
    eapply carries_more; [| exact Hev].
    simpl. rewrite forallb_app, Hres. reflexivity.
Qed.

(** X6.  Every model call of a run is sent the system message and the query,
    followed by messages of the exchange only (responses and tool results),
    followed, for a continuation check or the synthesis call, by that call's
    instruction: the instructions are never kept in the conversation. *)
Theorem conversation_shape
    query history tools tool_manager (N : Z) (w : World) :
  Forall (carries (initial_messages query history))
    (log_of (generate_response query history tools tool_manager N w)).
Proof.
  eapply rounds_run_carries. apply generate_response_run.
Qed.

(** A later call that carries on from the conversation [c]. *)
Definition extends (c : list Message) (ev : Event) : Prop :=
  match ev with
  | EvCreate site p _ => exists ext, conversation site p = c ++ ext
  | _ => True
  end.

Lemma conversation_of site p c :
  p_messages p = c ++ prompt_of site -> conversation site p = c.
Proof.
  intros E. unfold conversation. rewrite E, length_app.
  replace (List.length c + List.length (prompt_of site)
           - List.length (prompt_of site))%nat
    with (List.length c + 0)%nat by lia.
  rewrite firstn_app_2. simpl. apply app_nil_r.
Qed.

Lemma carries_extends ms ev : carries ms ev -> extends ms ev.
Proof.
  destruct ev as [site p res| |]; simpl; auto.
  intros (exchange & E & _). exists exchange.
  apply conversation_of. rewrite E, app_assoc. reflexivity.
Qed.

Lemma extends_more c ext ev : extends (c ++ ext) ev -> extends c ev.
Proof.
  destruct ev as [site p res| |]; simpl; auto.
  intros (ext' & E). exists (ext ++ ext'). rewrite E, app_assoc. reflexivity.
Qed.

Lemma rounds_run_extends tools tool_manager max_rounds rs ms log out :
  rounds_run tools tool_manager max_rounds rs ms log out ->
  Forall (extends ms) log.
Proof.
  intros H. eapply Forall_impl; [| eapply rounds_run_carries; eauto].
  apply carries_extends.
Qed.

Definition history_grows (ev : Event) (post : list Event) : Prop :=
  forall site p res,
    ev = EvCreate site p res -> Forall (extends (conversation site p)) post.

Lemma conversation_round_call tools ms res site p res' :
  round_call tools ms res = EvCreate site p res' -> conversation site p = ms.
Proof.
  unfold round_call. intros E; inversion E; subst.
  apply conversation_of. simpl. rewrite api_params_messages, app_nil_r.
  reflexivity.
Qed.

Lemma conversation_check_call ms res site p res' :
  check_call ms res = EvCreate site p res' -> conversation site p = ms.
Proof.
  unfold check_call. intros E; inversion E; subst.
  apply conversation_of. reflexivity.
Qed.

Lemma conversation_final_call ms res site p res' :
  final_call ms res = EvCreate site p res' -> conversation site p = ms.
Proof.
  unfold final_call. intros E; inversion E; subst.
  apply conversation_of. reflexivity.
Qed.

Lemma rounds_run_history_grows tools tool_manager max_rounds rs ms log out :
  rounds_run tools tool_manager max_rounds rs ms log out ->
  each_suffix history_grows log.
Proof.
  intros Hrun. pose proof (rounds_run_extends _ _ _ _ _ _ _ Hrun) as Hall.
  revert Hall.
  induction Hrun; intros Hall;
    try match goal with
        | Hp : tool_phase _ _ _ _ _ _ |- _ =>
            pose proof (tool_phase_events _ _ _ _ _ _ Hp) as Htl;
            destruct Hp as (w0 & w0' & results & Hres & ->)
        end.
  - apply each_suffix_cons; [| apply each_suffix_nil].
    intros site p res' E. constructor.
  - apply each_suffix_cons; [| apply each_suffix_nil].
    intros site p res' E. constructor.
  - apply each_suffix_cons; [| apply each_suffix_nil].
    intros site p res' E. constructor.
  - apply each_suffix_cons.
    { intros site p res' E. rewrite (conversation_round_call _ _ _ _ _ _ E).
      inversion Hall; assumption. }
    apply each_suffix_cons; [intros site p res' E; discriminate|].
    apply each_suffix_app.
    { intros ev post Hin site p res' E.
      destruct (exec_only_In _ _ _ Htl Hin) as (? & ? & ? & ->). discriminate. }
    apply each_suffix_cons; [| apply each_suffix_nil].
    intros site p res' E. constructor.
  - apply each_suffix_cons.
    { intros site p res' E. rewrite (conversation_round_call _ _ _ _ _ _ E).
      inversion Hall; assumption. }
    apply each_suffix_cons; [intros site p res' E; discriminate|].
    apply each_suffix_app.
    { intros ev post Hin site p res' E.
      destruct (exec_only_In _ _ _ Htl Hin) as (? & ? & ? & ->). discriminate. }
    apply each_suffix_cons; [| apply each_suffix_nil].
    intros site p res' E. constructor.
  - apply each_suffix_cons.
    { intros site p res' E. rewrite (conversation_round_call _ _ _ _ _ _ E).
      inversion Hall; assumption. }
    apply each_suffix_cons; [intros site p res' E; discriminate|].
    apply each_suffix_app.
    { intros ev post Hin site p res' E.
      destruct (exec_only_In _ _ _ Htl Hin) as (? & ? & ? & ->). discriminate. }
    apply each_suffix_cons; [| apply each_suffix_nil].
    intros site p res' E. constructor.
  - apply each_suffix_cons.
    { intros site p res' E. rewrite (conversation_round_call _ _ _ _ _ _ E).
      inversion Hall; assumption. }
    apply each_suffix_cons; [intros site p res' E; discriminate|].
    apply each_suffix_app.
    { intros ev post Hin site p res' E.
      destruct (exec_only_In _ _ _ Htl Hin) as (? & ? & ? & ->). discriminate. }
    apply each_suffix_cons.
    { intros site p res' E. rewrite (conversation_check_call _ _ _ _ _ E).
      constructor; [| constructor].
      exists []. rewrite app_nil_r.
      apply conversation_of. reflexivity. }
    apply each_suffix_cons; [| apply each_suffix_nil].
    intros site p res' E. constructor.
  - apply each_suffix_cons.
    { intros site p res' E. rewrite (conversation_round_call _ _ _ _ _ _ E).
      inversion Hall; assumption. }
    apply each_suffix_cons; [intros site p res' E; discriminate|].
    apply each_suffix_app.
    { intros ev post Hin site p res' E.
      destruct (exec_only_In _ _ _ Htl Hin) as (? & ? & ? & ->). discriminate. }
    pose proof (rounds_run_extends _ _ _ _ _ _ _ Hrun) as Hsub.
    apply each_suffix_cons; [| apply IHHrun; exact Hsub].
    intros site p res' E. rewrite (conversation_check_call _ _ _ _ _ E).
    eapply Forall_impl; [| exact Hsub].
    intros ev. apply extends_more.
Qed.

(** X7.  The conversation only grows along a run: whenever a model call is
    followed by another one, the conversation of the later call is that of
    the earlier call with messages added at its end; nothing sent before is
    dropped or rewritten. *)
Theorem conversation_only_grows
    query history tools tool_manager (N : Z) (w : World)
    pre site1 p1 res1 post site2 p2 res2 :
  log_of (generate_response query history tools tool_manager N w)
    = pre ++ EvCreate site1 p1 res1 :: post ->
  In (EvCreate site2 p2 res2) post ->
  exists added, conversation site2 p2 = conversation site1 p1 ++ added.
Proof.
  intros Hlog Hin.
  pose proof (generate_response_run query history tools tool_manager N w) as Hrun.
  pose proof (rounds_run_history_grows _ _ _ _ _ _ _ Hrun) as Hs.
  specialize (Hs pre _ post Hlog site1 p1 res1 eq_refl).
  rewrite Forall_forall in Hs. exact (Hs _ Hin).
Qed.

(** *** Tool requests and tool results *)

(** The ids of the tool results held by a conversation, in order. *)
Definition result_ids (ms : list Message) : list string :=
  flat_map (fun m => match result_id m with Some i => [i] | None => [] end) ms.

(** The ids of the tool calls of the rounds started in a log, in order. *)
Definition requested_ids (log : list Event) : list string :=
  flat_map (fun ev => match ev with
                      | EvRound _ tcs => map tc_id tcs
                      | _ => []
                      end) log.

Lemma result_ids_app a b : result_ids (a ++ b) = result_ids a ++ result_ids b.
Proof. apply flat_map_app. Qed.

Lemma requested_ids_app a b :
  requested_ids (a ++ b) = requested_ids a ++ requested_ids b.
Proof. apply flat_map_app. Qed.

Lemma exec_only_requested cr tl :
  forallb (is_exec cr) tl = true -> requested_ids tl = [].
Proof.
  induction tl as [|ev tl IH]; simpl; intros H; [reflexivity|].
  apply andb_true_iff in H. destruct H as [Hev Htl].
  destruct ev as [| |c n k r]; simpl in Hev; try discriminate.
  simpl. auto.
Qed.

Lemma results_ids results : forall tcs,
  map result_id results = map (fun tc => Some (tc_id tc)) tcs ->
  result_ids results = map tc_id tcs.
Proof.
  induction results as [|m results IH]; intros [|tc tcs] E;
    try discriminate; [reflexivity|].
  simpl in E. inversion E as [[Em Er]].
  unfold result_ids in *. simpl. rewrite Em. simpl. f_equal. auto.
Qed.

Lemma result_ids_obj m l : result_ids (Obj m :: l) = result_ids l.
Proof. reflexivity. Qed.

Lemma result_ids_dict role text l :
  result_ids (Dict role text :: l) = result_ids l.
Proof. reflexivity. Qed.

Lemma result_ids_nil : result_ids [] = [].
Proof. reflexivity. Qed.

Lemma requested_ids_create site p res l :
  requested_ids (EvCreate site p res :: l) = requested_ids l.
Proof. reflexivity. Qed.

Lemma requested_ids_round cr tcs l :
  requested_ids (EvRound cr tcs :: l) = map tc_id tcs ++ requested_ids l.
Proof. reflexivity. Qed.

Lemma requested_ids_nil : requested_ids [] = [].
Proof. reflexivity. Qed.

Lemma final_params_messages ms :
  p_messages (final_params ms) = ms ++ [Dict "user" FINAL_PROMPT].
Proof. reflexivity. Qed.

Lemma decision_params_messages ms :
  p_messages (decision_params ms) = ms ++ [Dict "user" CONTINUE_PROMPT].
Proof. reflexivity. Qed.

Create Rewrite HintDb ids.

Local Hint Rewrite api_params_messages final_params_messages
  decision_params_messages result_ids_app requested_ids_app
  result_ids_obj result_ids_dict result_ids_nil requested_ids_create
  requested_ids_round requested_ids_nil app_nil_r : ids.

Definition answers_requests (ms : list Message)
    (pre : list Event) (ev : Event) : Prop :=
  forall site p res,
    ev = EvCreate site p res ->
    result_ids (p_messages p) = result_ids ms ++ requested_ids pre.

Lemma rounds_run_answers_requests tools tool_manager max_rounds rs ms log out :
  rounds_run tools tool_manager max_rounds rs ms log out ->
  each_prefix (answers_requests ms) log.
Proof.
  induction 1;
    try match goal with
        | Hp : tool_phase _ _ _ _ _ _ |- _ =>
            pose proof (tool_phase_events _ _ _ _ _ _ Hp) as Htl;
            pose proof (exec_only_requested _ _ Htl) as Hnone;
            destruct Hp as (w0 & w0' & results & Hres & ->);
            apply tools_run_results, results_ids in Hres
        end;
    unfold round_call, check_call, final_call;
    repeat first
      [ apply each_prefix_nil
      | apply each_prefix_cons
      | apply each_prefix_app ];
    try (intros pre0 ev0 Hin site p res0 E;
         destruct (exec_only_In _ _ _ Htl Hin) as (? & ? & ? & ->);
         discriminate);
    try (intros site p res0 E; try discriminate; inversion E; subst;
         autorewrite with ids; rewrite ?Hres, ?Hnone;
         autorewrite with ids; reflexivity).
  eapply each_prefix_impl; [| exact IHrounds_run].
  intros pre0 ev0 Hev site p res0 E. rewrite (Hev site p res0 E).
  autorewrite with ids; rewrite ?Hres, ?Hnone; autorewrite with ids.
  rewrite <- ?app_assoc. reflexivity.
Qed.

(** X8.  At every model call of a run, the tool results held by the messages sent
    are, in order, one for each tool call of the rounds started so far: the
    ids of the results are the ids of those calls. *)
Theorem every_request_answered_before_next_call
    query history tools tool_manager (N : Z) (w : World)
    pre site p res post :
  log_of (generate_response query history tools tool_manager N w)
    = pre ++ EvCreate site p res :: post ->
  result_ids (p_messages p) = requested_ids pre.
Proof.
  intros Hlog.
  pose proof (generate_response_run query history tools tool_manager N w) as Hrun.
  pose proof (rounds_run_answers_requests _ _ _ _ _ _ _ Hrun) as Hs.
  exact (Hs pre _ post Hlog site p res eq_refl).
Qed.

(* ----------------------------------------------------------------- *)
(** *** The single-round handler [_handle_tool_execution]

    The method kept for backward compatibility.  It has no round number and
    no call site of the loop above, so its outgoing calls are logged with
    events of their own.  Its tool loop has no [try]: the first exception
    leaves the method. *)

Inductive LegacyEvent : Type :=
| LegacyExecuteTool (name : string) (kwargs : Kwargs) (res : Result string)
| LegacyCreate (params : ApiParams) (res : Result Response).

(** The body of [for tool_call in tool_calls], over the remaining calls. *)
Fixpoint legacy_tool_loop (tool_manager : ToolManager)
    (remaining : list ToolCall) (messages : list Message) (w : World)
  : World * list LegacyEvent * Result (list Message) :=
  match remaining with
  | [] => (w, [], Returned messages)
  | tool_call :: rest =>
      match json_loads (tc_function_arguments tool_call) with
      | Raised e => (w, [], Raised e)
      | Returned kwargs =>
          let '(w1, res) :=
            tool_manager (tc_function_name tool_call) kwargs w in
          let ev := LegacyExecuteTool (tc_function_name tool_call) kwargs res in
          match res with
          | Raised e => (w1, [ev], Raised e)
          | Returned tool_result =>
              let '(w2, l, out) :=
                legacy_tool_loop tool_manager rest
                  (messages ++ [ToolDict (tc_id tool_call) tool_result]) w1 in
              (w2, ev :: l, out)
          end
      end
  end.

(** [base_params] is the dictionary passed by the caller, of which only the
    [messages] entry is read; the final call is built from
    [self.base_params]. *)
Definition _handle_tool_execution (initial_response : Response)
    (base_params : ApiParams) (tool_manager : ToolManager) (w : World)
  : World * list LegacyEvent * Result (option string) :=
  let messages := p_messages base_params in
  let messages := messages ++ [Obj (message initial_response)] in
  let '(w1, l1, r) :=
    legacy_tool_loop tool_manager
      (tool_calls (message initial_response)) messages w in
  match r with
  | Raised e => (w1, l1, Raised e)
  | Returned messages =>
      let final_params := Generator.base_params messages in
      let '(w2, res) := create final_params w1 in
      (w2, l1 ++ [LegacyCreate final_params res], answer_of res)
  end.

Definition is_legacy_create (ev : LegacyEvent) : bool :=
  match ev with
  | LegacyCreate _ _ => true
  | LegacyExecuteTool _ _ _ => false
  end.

(** What the single-round handler would have logged for an event of the
    round loop. *)
Definition erase (ev : Event) : list LegacyEvent :=
  match ev with
  | EvExecuteTool _ name kwargs res => [LegacyExecuteTool name kwargs res]
  | _ => []
  end.

(** The failure of one tool call in the world [w]: its payload does not
    parse, or the tool manager raises. *)
Inductive call_fails (tool_manager : ToolManager) (tc : ToolCall)
  : World -> World -> list LegacyEvent -> Exception -> Prop :=
| fails_malformed w e :
    json_loads (tc_function_arguments tc) = Raised e ->
    call_fails tool_manager tc w w [] e
| fails_raising w w' kwargs e :
    json_loads (tc_function_arguments tc) = Returned kwargs ->
    tool_manager (tc_function_name tc) kwargs w = (w', Raised e) ->
    call_fails tool_manager tc w w'
      [LegacyExecuteTool (tc_function_name tc) kwargs (Raised e)] e.

Lemma legacy_tool_loop_app tm pre : forall rest ms w,
  legacy_tool_loop tm (pre ++ rest) ms w
  = let '(w1, l1, r) := legacy_tool_loop tm pre ms w in
    match r with
    | Raised e => (w1, l1, Raised e)
    | Returned ms1 =>
        let '(w2, l2, out) := legacy_tool_loop tm rest ms1 w1 in
        (w2, l1 ++ l2, out)
    end.
Proof.
  induction pre as [|tc pre IH]; intros rest ms w; simpl.
  - destruct (legacy_tool_loop tm rest ms w) as [[w2 l2] out]. reflexivity.
  - destruct (json_loads (tc_function_arguments tc)) as [kwargs|e];
      [| reflexivity].
    destruct (tm (tc_function_name tc) kwargs w) as [w1 [s|e]];
      [| reflexivity].
    rewrite IH.
    destruct (legacy_tool_loop tm pre _ w1) as [[w2 l2] [ms1|e]];
      [| reflexivity].
    destruct (legacy_tool_loop tm rest ms1 w2) as [[w3 l3] out]. reflexivity.
Qed.

Lemma legacy_tool_loop_fails tm tc rest ms w w' l e :
  call_fails tm tc w w' l e ->
  legacy_tool_loop tm (tc :: rest) ms w = (w', l, Raised e).
Proof.
  intros [w0 e0 Hj | w0 w1 kwargs e0 Hj Ht]; simpl; rewrite Hj;
    [| rewrite Ht]; reflexivity.
Qed.

(** X9.  In the single-round handler, the first tool call that fails ends the
    method with that exception: the calls before it have been executed, the
    calls after it are not, and the model is not called. *)
Theorem legacy_handler_aborts_on_first_failure
    initial_response base_params (tm : ToolManager) (w w1 w2 : World)
    pre tc post l1 l2 ms1 e :
  tool_calls (message initial_response) = pre ++ tc :: post ->
  legacy_tool_loop tm pre
    (p_messages base_params ++ [Obj (message initial_response)]) w
    = (w1, l1, Returned ms1) ->
  call_fails tm tc w1 w2 l2 e ->
  _handle_tool_execution initial_response base_params tm w
    = (w2, l1 ++ l2, Raised e)
  /\ existsb is_legacy_create (l1 ++ l2) = false.
Proof.
  intros Htcs Hpre Hfail.
  assert (Hl1 : existsb is_legacy_create l1 = false).
  { clear Htcs Hfail. revert Hpre.
    generalize (p_messages base_params ++ [Obj (message initial_response)]).
    revert w w1 l1 ms1.
    induction pre as [|c pre IH]; intros w w1 l1 ms1 ms; simpl.
    - intros E; inversion E; reflexivity.
    - destruct (json_loads (tc_function_arguments c)) as [kwargs|e0];
        [| discriminate].
      destruct (tm (tc_function_name c) kwargs w) as [w0 [s|e0]];
        [| discriminate].
      destruct (legacy_tool_loop tm pre _ w0) as [[w3 l3] out] eqn:E.
      intros E'; inversion E'; subst. simpl. eapply IH; eauto. }
  split.
  - unfold _handle_tool_execution. rewrite Htcs, legacy_tool_loop_app, Hpre.
    rewrite (legacy_tool_loop_fails _ _ post ms1 _ _ _ _ Hfail). reflexivity.
  - rewrite existsb_app, Hl1. destruct Hfail; reflexivity.
Qed.

Lemma legacy_tool_loop_agrees tm cr tcs : forall ms w w' l ms',
  legacy_tool_loop tm tcs ms w = (w', l, Returned ms') ->
  exists log results,
    tool_loop tm cr tcs ms w = (w', log, Returned ms')
    /\ flat_map erase log = l
    /\ ms' = ms ++ results
    /\ map result_id results = map (fun tc => Some (tc_id tc)) tcs.
Proof.
  induction tcs as [|tc rest IH]; intros ms w w' l ms'; simpl.
  - intros E; inversion E; subst. exists [], []. rewrite app_nil_r.
    repeat split; reflexivity.
  - destruct (json_loads (tc_function_arguments tc)) as [kwargs|e] eqn:Hj;
      [| discriminate].
    destruct (tm (tc_function_name tc) kwargs w) as [w1 [s|e]] eqn:Ht;
      [| discriminate].
    destruct (legacy_tool_loop tm rest _ w1) as [[w2 l2] out] eqn:E.
    intros E'; inversion E'; subst.
    destruct (IH _ _ _ _ _ E) as (log & results & Hloop & Herase & Hms & Hids).
    exists (EvExecuteTool cr (tc_function_name tc) kwargs (Returned s) :: log),
      (ToolDict (tc_id tc) s :: results).
    repeat split.
    + unfold bind at 1, try_except, bind, lift, execute_tool, ret.
      rewrite Ht, Hloop. reflexivity.
    + simpl. rewrite Herase. reflexivity.
    + rewrite Hms, <- app_assoc. reflexivity.
    + simpl. rewrite Hids. reflexivity.
Qed.

(** X10.  When no tool call of the response fails, the single-round handler and
    the tool phase of a round of the loop do the same: the same calls of the
    tool manager in the same order, the same world, the same tool messages,
    one per requested call.  The handler then makes one model call, without
    tools and without any added instruction, and returns its text. *)
Theorem legacy_handler_agrees_when_tools_succeed
    initial_response base_params (tm : ToolManager) (current_round : Z)
    (w w1 : World) l1 ms1 :
  legacy_tool_loop tm (tool_calls (message initial_response))
    (p_messages base_params ++ [Obj (message initial_response)]) w
    = (w1, l1, Returned ms1) ->
  exists log results,
    tool_loop tm current_round (tool_calls (message initial_response))
      (p_messages base_params ++ [Obj (message initial_response)]) w
    = (w1, log, Returned ms1)
    /\ flat_map erase log = l1
    /\ ms1 = p_messages base_params ++ [Obj (message initial_response)]
             ++ results
    /\ map result_id results
       = map (fun tc => Some (tc_id tc))
           (tool_calls (message initial_response))
    /\ _handle_tool_execution initial_response base_params tm w
       = (fst (create (Generator.base_params ms1) w1),
          l1 ++ [LegacyCreate (Generator.base_params ms1)
                   (snd (create (Generator.base_params ms1) w1))],
          answer_of (snd (create (Generator.base_params ms1) w1))).
Proof.
  intros Hloop.
  destruct (legacy_tool_loop_agrees tm current_round _ _ _ _ _ _ Hloop)
    as (log & results & Ht & Herase & Hms & Hids).
  exists log, results. repeat split; try assumption.
  - rewrite Hms, <- app_assoc. reflexivity.
  - unfold _handle_tool_execution. rewrite Hloop.
    destruct (create (Generator.base_params ms1) w1) as [w2 res]. reflexivity.
Qed.

(* ----------------------------------------------------------------- *)
(** *** Where the answer comes from, and when tools run *)

(** The three ways a response becomes the answer. *)
Definition answering (tool_manager : option ToolManager)
    (site : CallSite) (r : Response) : Prop :=
  match site with
  | MakeApiCall => wants_tools r tool_manager = None
  | ShouldContinue =>
      String.eqb (finish_reason r) "tool_calls" = false
      /\ truthy_str (content (message r)) = true
  | GetFinalResponse => True
  end.

Lemma rounds_run_answer_source tools tool_manager max_rounds rs ms log out :
  rounds_run tools tool_manager max_rounds rs ms log out ->
  exists pre site p res,
    log = pre ++ [EvCreate site p res]
    /\ out = answer_of res
    /\ forall r, res = Returned r -> answering tool_manager site r.
Proof.
  induction 1.
  - exists [], GetFinalResponse, (final_params ms), res.
    split; [reflexivity | split; [reflexivity | intros; exact I]].
  - exists [], MakeApiCall, (api_params ms tools), (Raised e).
    split; [reflexivity | split; [reflexivity | discriminate]].
  - exists [], MakeApiCall, (api_params ms tools), (Returned r).
    split; [reflexivity | split; [reflexivity |]].
    intros resp Hresp; inversion Hresp; subst. assumption.
  - exists (round_call tools ms (Returned r)
              :: EvRound (rn + 1) (tool_calls (message r)) :: tl),
      GetFinalResponse, (final_params ms1), res.
    split; [reflexivity | split; [reflexivity | intros; exact I]].
  - exists (round_call tools ms (Returned r)
              :: EvRound (rn + 1) (tool_calls (message r)) :: tl),
      ShouldContinue, (decision_params ms1), (Raised e).
    split; [reflexivity | split; [reflexivity | discriminate]].
  - exists (round_call tools ms (Returned r)
              :: EvRound (rn + 1) (tool_calls (message r)) :: tl),
      ShouldContinue, (decision_params ms1), (Returned d).
    split; [reflexivity | split; [reflexivity |]].
    intros resp Hresp; inversion Hresp; subst. split; assumption.
  - exists (round_call tools ms (Returned r)
              :: EvRound (rn + 1) (tool_calls (message r))
              :: tl ++ [check_call ms1 (Returned d)]),
      GetFinalResponse, (final_params ms1), res.
    split; [| split; [reflexivity | intros; exact I]].
    simpl. rewrite <- app_assoc. reflexivity.
  - destruct IHrounds_run as (pre & site & p & res & -> & -> & Hsrc).
    exists (round_call tools ms (Returned r)
              :: EvRound (rn + 1) (tool_calls (message r))
              :: tl ++ check_call ms1 (Returned d) :: pre),
      site, p, res.
    split; [| split; [reflexivity | assumption]].
    simpl. rewrite <- app_assoc. reflexivity.
Qed.

(** X11.  What [generate_response] returns is the text of the last model call it
    made, and that call is one of three: a round call whose response asks
    for no tool (or there is no tool manager), a continuation check that
    came back with no tool request and a non-empty text, or the synthesis
    call.  The text of a response that is acted upon as a tool request is
    never the answer. *)
Theorem answer_source
    query history tools tool_manager (N : Z) (w : World) :
  exists pre site p res,
    log_of (generate_response query history tools tool_manager N w)
    = pre ++ [EvCreate site p res]
    /\ outcome_of (generate_response query history tools tool_manager N w)
       = answer_of res
    /\ forall r, res = Returned r -> answering tool_manager site r.
Proof.
  eapply rounds_run_answer_source. apply generate_response_run.
Qed.

(** A round of tool calls follows a round call whose response asked for it;
    a tool execution belongs to a started round that requested that tool. *)
Definition on_request (tool_manager : option ToolManager)
    (pre : list Event) (ev : Event) : Prop :=
  match ev with
  | EvRound cr tcs =>
      exists pre' p r,
        pre = pre' ++ [EvCreate MakeApiCall p (Returned r)]
        /\ tcs = tool_calls (message r)
        /\ String.eqb (finish_reason r) "tool_calls" = true
        /\ tool_manager <> None
  | EvExecuteTool cr name _ _ =>
      exists tcs,
        In (EvRound cr tcs) pre
        /\ In name (map tc_function_name tcs)
  | EvCreate _ _ _ => True
  end.

Lemma on_request_more tool_manager head pre ev :
  on_request tool_manager pre ev -> on_request tool_manager (head ++ pre) ev.
Proof.
  destruct ev as [site p res|cr tcs|cr name k res]; simpl; auto.
  - intros (pre' & p & r & -> & H). exists (head ++ pre'), p, r.
    rewrite <- app_assoc. auto.
  - intros (tcs & Hin & Hn). exists tcs. split; [| assumption].
    apply in_or_app. right. assumption.
Qed.

Lemma tools_run_names tm cr tcs w w' tl results :
  tools_run tm cr tcs w w' tl results ->
  forall c name k res,
    In (EvExecuteTool c name k res) tl ->
    c = cr /\ In name (map tc_function_name tcs).
Proof.
  intros Hrun c name k res Hin.
  pose proof (tools_run_events _ _ _ _ _ _ _ Hrun) as Hexec.
  destruct (exec_only_In _ _ _ Hexec Hin) as (n' & k' & r' & E).
  inversion E; subst. split; [reflexivity|].
  assert (Hn : In n' (flat_map executed_name tl)).
  { apply in_flat_map. eexists; split; [exact Hin | left; reflexivity]. }
  rewrite (tools_run_executed _ _ _ _ _ _ _ Hrun) in Hn.
  apply in_map_iff in Hn. destruct Hn as (tc & <- & Htc).
  apply in_map. apply filter_In in Htc. tauto.
Qed.

Lemma tool_phase_on_request tool_manager tm cr r ms tl ms1 head :
  tool_phase tm cr r ms tl ms1 ->
  each_prefix
    (fun pre e =>
       on_request tool_manager
         (head ++ EvRound cr (tool_calls (message r)) :: pre) e) tl.
Proof.
  intros (w0 & w0' & results & Hrun & _) pre ev post E.
  assert (Hin : In ev tl) by (rewrite E; apply in_elt).
  pose proof (tools_run_events _ _ _ _ _ _ _ Hrun) as Hexec.
  destruct (exec_only_In _ _ _ Hexec Hin) as (n & k & res & ->).
  destruct (tools_run_names _ _ _ _ _ _ _ Hrun _ _ _ _ Hin) as [_ Hn].
  simpl. exists (tool_calls (message r)). split; [| assumption].
  apply in_elt.
Qed.

Lemma rounds_run_on_request tools tool_manager max_rounds rs ms log out :
  rounds_run tools tool_manager max_rounds rs ms log out ->
  each_prefix (on_request tool_manager) log.
Proof.
  induction 1;
    try match goal with
        | Hw : wants_tools _ _ = Some _ |- _ =>
            pose proof (wants_tools_requested _ _ _ Hw) as Hreq;
            assert (Hsome : tool_manager <> None)
              by (intros ->; rewrite wants_tools_none in Hw; discriminate)
        end;
    try match goal with
        | Hp : tool_phase _ _ _ _ _ _ |- _ =>
            pose proof (tool_phase_on_request tool_manager _ _ _ _ _ _
                          [round_call tools ms (Returned r)] Hp) as Htl
        end;
    unfold round_call, check_call, final_call in *;
    repeat first
      [ apply each_prefix_nil
      | apply each_prefix_cons
      | apply each_prefix_app_each ];
    try exact I; try exact Htl;
    try (exists [], (api_params ms tools), r; repeat split; assumption).
  eapply each_prefix_impl; [| exact IHrounds_run].
  intros pre0 ev0 Hev.
  apply (on_request_more tool_manager
           (EvCreate MakeApiCall (api_params ms tools) (Returned r)
              :: EvRound (rn + 1) (tool_calls (message r))
              :: tl ++ [EvCreate ShouldContinue (decision_params ms1)
                          (Returned d)])) in Hev.
  simpl in Hev. rewrite <- app_assoc in Hev. exact Hev.
Qed.

(** X12.  Tools run at the model's request only.  In any run, a round of tool
    calls is started only right after a round call whose response has
    [finish_reason] [tool_calls], with the tool calls of that response, and
    only when a tool manager was given; and every call of the tool manager
    executes a tool that a round started earlier asked for. *)
Theorem tools_run_only_on_request
    query history tools tool_manager (N : Z) (w : World) :
  each_prefix (on_request tool_manager)
    (log_of (generate_response query history tools tool_manager N w)).
Proof.
  eapply rounds_run_on_request. apply generate_response_run.
Qed.

End Generator.

Arguments EvCreate {Kwargs} site params res.
Arguments EvRound {Kwargs} current_round requested.
Arguments EvExecuteTool {Kwargs} current_round name kwargs res.
Arguments log_of {World Kwargs A} x.
Arguments outcome_of {World Kwargs A} x.
Arguments tool_rounds {Kwargs} log.
Arguments model_calls {Kwargs} log.
Arguments rounds_started {Kwargs} log.
Arguments transport_failed {Kwargs} ev.
Arguments final_synthesis_called {Kwargs} log.
Arguments round_executed {Kwargs} n log.
Arguments check_answered_empty {Kwargs} log.
Arguments hides_tools {Kwargs} ev.
Arguments continuation_checks {Kwargs} log.
Arguments requested_ids {Kwargs} log.
Arguments LegacyExecuteTool {Kwargs} name kwargs res.
Arguments LegacyCreate {Kwargs} params res.
Arguments is_legacy_create {Kwargs} ev.
Arguments erase {Kwargs} ev.

(** *** A scripted world

    The doubles of the test-suite: a client that answers with the next entry
    of a prepared list (a mock's [side_effect]), a parser that rejects one
    malformed payload, and a tool manager with one tool that raises. *)

Definition Script : Type := list (Result Response).

Definition scripted_create (_ : ApiParams) (w : Script)
  : Script * Result Response :=
  match w with
  | res :: rest => (rest, res)
  | [] => ([], Raised (Exc "StopIteration"))
  end.

Definition scripted_json_loads (payload : string) : Result string :=
  if String.eqb payload "{" then
    Raised (Exc "Expecting property name enclosed in double quotes")
  else Returned payload.

Definition scripted_tool_manager : ToolManager Script string :=
  fun name kwargs w =>
    if String.eqb name "broken_tool" then (w, Raised (Exc "index offline"))
    else (w, Returned ("result of " ++ name)%string).

Definition scripted_generate_response :=
  generate_response Script string scripted_json_loads scripted_create
    "SYSTEM" "deepseek-chat".

Definition search_tool : AnthropicTool :=
  {| t_name := Some "search_course_content"%string;
     t_description := Some "Search"%string;
     t_input_schema := None;
     t_other := [] |}.

Definition search_call (id : string) : ToolCall :=
  {| tc_id := id;
     tc_function_name := "search_course_content";
     tc_function_arguments := "{}" |}.

(** A response that asks for the tool calls [tcs]. *)
Definition tool_response (tcs : list ToolCall) : Response :=
  {| finish_reason := "tool_calls";
     message := {| content := None; tool_calls := tcs |} |}.

(** A response that answers with [text]. *)
Definition text_response (text : string) : Response :=
  {| finish_reason := "stop";
     message := {| content := Some text; tool_calls := [] |} |}.

Definition run_with (tool_manager : option (ToolManager Script string))
    (N : Z) (script : Script) :=
  scripted_generate_response "q" None (Some [search_tool]) tool_manager N script.

Definition with_tools : option (ToolManager Script string) :=
  Some scripted_tool_manager.

(** The conversation after the first round of the scripts below. *)
Definition after_first_round : list Message :=
  initial_messages "SYSTEM" "q" None
    ++ [Obj (message (tool_response [search_call "c1"]));
        ToolDict "c1" "result of search_course_content"].

(** **** A model that never stops asking for tools *)

Definition insistent_script : Script :=
  [Returned (tool_response [search_call "c1"]);
   Returned (tool_response [search_call "c2"]);
   Returned (tool_response [search_call "c3"]);
   Returned (text_response "final")].


Example insistent_run :
  tool_rounds (log_of (run_with with_tools 2 insistent_script)) = [1; 2]%Z
  /\ model_calls (log_of (run_with with_tools 2 insistent_script)) = 4%nat
  /\ outcome_of (run_with with_tools 2 insistent_script)
     = Returned (Some "final"%string).
Proof. repeat split; reflexivity. Qed.

(** A response that ends the turn without any text. *)
Definition silent_response : Response :=
  {| finish_reason := "stop";
     message := {| content := None; tool_calls := [] |} |}.

Definition silent_script : Script :=
  [Returned (tool_response [search_call "c1"]); Returned silent_response].


(** **** A continuation check that comes back empty *)

Definition empty_check_script : Script :=
  [Returned (tool_response [search_call "c1"]);
   Returned (text_response "");
   Returned (text_response "synthesis")].

(** C2 as stated fails: with [max_rounds = 2], the check after round 1 answers
    with an empty text; the synthesis call is made although no tool call of
    round 2 was ever run. *)
Lemma final_synthesis_before_last_round :
  final_synthesis_called (log_of (run_with with_tools 2 empty_check_script)) = true
  /\ round_executed 2 (log_of (run_with with_tools 2 empty_check_script)) = false
  /\ outcome_of (run_with with_tools 2 empty_check_script)
     = Returned (Some "synthesis"%string).
Proof. repeat split; reflexivity. Qed.

Lemma final_synthesis_exactly_when_witness :
  (1 <= 2)%Z
  /\ final_synthesis_called (log_of (run_with with_tools 2 empty_check_script))
     = round_executed 2 (log_of (run_with with_tools 2 empty_check_script))
       || check_answered_empty (log_of (run_with with_tools 2 empty_check_script)).
Proof.
  split; [lia|].
  exact (proj1 (final_synthesis_exactly_when Script string
                  scripted_json_loads scripted_create "SYSTEM" "deepseek-chat"
                  "q" None (Some [search_tool]) with_tools 2 empty_check_script
                  ltac:(lia))).
Defined.

(** **** A continuation check that asks for another tool *)

Definition continue_script : Script :=
  [Returned (tool_response [search_call "c1"]);
   Returned (tool_response [search_call "c2"]);
   Returned (text_response "done")].

Definition continue_log : list (Event string) :=
  log_of (run_with with_tools 2 continue_script).

(** C3 as stated fails: the check after round 1 asks for the call [c2]; what
    follows is not the execution of [c2] but a fresh model call with the
    tools advertised, whose direct answer ends the query; no tool call of a
    second round is ever run. *)
Lemma continuation_request_not_executed :
  nth_error continue_log 3
    = Some (EvCreate ShouldContinue
              (decision_params "deepseek-chat" after_first_round)
              (Returned (tool_response [search_call "c2"])))
  /\ nth_error continue_log 4
     = Some (EvCreate MakeApiCall
               (api_params "deepseek-chat"
                  (after_first_round
                     ++ [Obj (message (tool_response [search_call "c2"]))])
                  (Some [search_tool]))
               (Returned (text_response "done")))
  /\ List.length continue_log = 5%nat
  /\ round_executed 2 continue_log = false
  /\ tool_rounds continue_log = [1%Z]
  /\ outcome_of (run_with with_tools 2 continue_script)
     = Returned (Some "done"%string).
Proof. repeat split; reflexivity. Qed.

(** The ids of the tool calls a response asks for. *)
Definition asked_ids (res : Result Response) : list string :=
  match res with
  | Returned r =>
      if String.eqb (finish_reason r) "tool_calls"
      then map tc_id (tool_calls (message r))
      else []
  | Raised _ => []
  end.

(** The ids of the tool calls requested by the model along a log, and the
    ids of the tool results sent to it with each call. *)
Definition requests_by_model (log : list (Event string)) : list string :=
  flat_map (fun ev => match ev with
                      | EvCreate _ _ res => asked_ids res
                      | _ => []
                      end) log.

Definition results_sent (log : list (Event string)) : list (list string) :=
  flat_map (fun ev => match ev with
                      | EvCreate _ p _ => [flat_map (fun m => match m with ToolDict i _ => [i] | _ => [] end) (p_messages p)]
                      | _ => []
                      end) log.


Lemma continuation_starts_fresh_round_witness :
  exists res post',
    skipn 4 continue_log
    = EvCreate MakeApiCall
        (api_params "deepseek-chat"
           (removelast
              (p_messages (decision_params "deepseek-chat" after_first_round))
            ++ [Obj (message (tool_response [search_call "c2"]))])
           (Some [search_tool]))
        res :: post'.
Proof.
  apply (continuation_starts_fresh_round Script string
           scripted_json_loads scripted_create "SYSTEM" "deepseek-chat"
           "q" None (Some [search_tool]) with_tools 2 continue_script
           (firstn 3 continue_log)
           (decision_params "deepseek-chat" after_first_round)
           (tool_response [search_call "c2"])
           (skipn 4 continue_log)); reflexivity.
Defined.

(** C4 at this input: the model call of round 1 advertises the registered
    tool, the continuation check that follows it (made before the round
    limit) is sent with neither [tools] nor [tool_choice]. *)
Lemma continuation_check_sent_without_tools :
  (exists p res,
     nth_error continue_log 0 = Some (EvCreate MakeApiCall p res)
     /\ p_tools p = Some (_convert_tools_to_openai_format [search_tool])
     /\ p_tool_choice p = Some "auto"%string)
  /\ (exists p res,
        nth_error continue_log 3 = Some (EvCreate ShouldContinue p res)
        /\ p_tools p = None
        /\ p_tool_choice p = None).
Proof. split; do 2 eexists; repeat split; reflexivity. Qed.

(** **** A direct answer *)

Definition direct_script : Script := [Returned (text_response "hello")].

Lemma direct_answer_returned_verbatim_witness :
  @nil (Event string) = []
  /\ outcome_of (run_with with_tools 2 direct_script)
     = Returned (content (message (text_response "hello"))).
Proof.
  apply (direct_answer_returned_verbatim Script string
           scripted_json_loads scripted_create "SYSTEM" "deepseek-chat"
           "q" None (Some [search_tool]) with_tools 2 direct_script
           []
           (api_params "deepseek-chat" (initial_messages "SYSTEM" "q" None)
              (Some [search_tool]))
           (text_response "hello") []); reflexivity.
Defined.

(** **** No tool manager *)

Lemma no_tool_manager_returns_content_witness :
  run_with None 2 insistent_script
  = (tl insistent_script,
     [EvCreate MakeApiCall
        (api_params "deepseek-chat" (initial_messages "SYSTEM" "q" None)
           (Some [search_tool]))
        (Returned (tool_response [search_call "c1"]))],
     Returned None).
Proof.
  exact (proj2 (no_tool_manager_returns_content Script string
                  scripted_json_loads scripted_create "SYSTEM" "deepseek-chat"
                  "q" None (Some [search_tool]) 2 insistent_script
                  (tl insistent_script) (tool_response [search_call "c1"])
                  ltac:(lia) eq_refl)).
Defined.

(** **** A round with a malformed payload and a tool that raises *)

Definition mixed_calls : list ToolCall :=
  [{| tc_id := "a"; tc_function_name := "search_course_content";
      tc_function_arguments := "{" |};
   {| tc_id := "b"; tc_function_name := "broken_tool";
      tc_function_arguments := "{}" |};
   search_call "c"].

Example mixed_round :
  tool_loop Script string scripted_json_loads scripted_tool_manager 1
    mixed_calls [] []
  = ([],
     [EvExecuteTool 1 "broken_tool" "{}"%string (Raised (Exc "index offline"));
      EvExecuteTool 1 "search_course_content" "{}"%string
        (Returned "result of search_course_content"%string)],
     Returned
       [ToolDict "a"
          "Tool execution failed: Expecting property name enclosed in double quotes";
        ToolDict "b" "Tool execution failed: index offline";
        ToolDict "c" "result of search_course_content"]).
Proof. reflexivity. Qed.

(** **** A round limit of zero *)

Lemma no_rounds_only_synthesis_witness :
  (0 <= 0)%Z
  /\ exists res,
       log_of (run_with with_tools 0 direct_script)
       = [EvCreate GetFinalResponse
            (final_params "deepseek-chat" (initial_messages "SYSTEM" "q" None))
            res]
       /\ outcome_of (run_with with_tools 0 direct_script) = answer_of res.
Proof.
  split; [lia|].
  exact (no_rounds_only_synthesis Script string
           scripted_json_loads scripted_create "SYSTEM" "deepseek-chat"
           "q" None (Some [search_tool]) with_tools 0 direct_script
           ltac:(lia)).
Defined.

(** **** The conversation along the run of [continue_script] *)

Definition second_round_messages : list Message :=
  after_first_round ++ [Obj (message (tool_response [search_call "c2"]))].

Lemma conversation_only_grows_witness :
  exists added,
    conversation MakeApiCall
      (api_params "deepseek-chat" second_round_messages (Some [search_tool]))
    = conversation MakeApiCall
        (api_params "deepseek-chat" (initial_messages "SYSTEM" "q" None)
           (Some [search_tool]))
      ++ added.
Proof.
  apply (conversation_only_grows Script string
           scripted_json_loads scripted_create "SYSTEM" "deepseek-chat"
           "q" None (Some [search_tool]) with_tools 2 continue_script
           [] MakeApiCall
           (api_params "deepseek-chat" (initial_messages "SYSTEM" "q" None)
              (Some [search_tool]))
           (Returned (tool_response [search_call "c1"]))
           (tl continue_log) MakeApiCall
           (api_params "deepseek-chat" second_round_messages
              (Some [search_tool]))
           (Returned (text_response "done"))).
  - reflexivity.
  - do 3 right. left. reflexivity.
Defined.

Lemma every_request_answered_before_next_call_witness :
  result_ids
    (p_messages
       (api_params "deepseek-chat" second_round_messages (Some [search_tool])))
  = requested_ids (firstn 4 continue_log).
Proof.
  apply (every_request_answered_before_next_call Script string
           scripted_json_loads scripted_create "SYSTEM" "deepseek-chat"
           "q" None (Some [search_tool]) with_tools 2 continue_script
           (firstn 4 continue_log) MakeApiCall
           (api_params "deepseek-chat" second_round_messages
              (Some [search_tool]))
           (Returned (text_response "done")) []).
  reflexivity.
Defined.

Example requests_of_continue_log :
  requested_ids (firstn 4 continue_log) = ["c1"%string].
Proof. reflexivity. Qed.

(** **** The tool format conversion *)

(** A missing key and an empty value are not told apart, and the entries
    under other keys are dropped. *)
Example convert_tools_defaults :
  _convert_tools_to_openai_format
    [{| t_name := None; t_description := None; t_input_schema := None;
        t_other := [("cache_control", "ephemeral")]%string |}]
  = _convert_tools_to_openai_format
      [{| t_name := Some ""%string; t_description := Some ""%string;
          t_input_schema := Some []; t_other := [] |}].
Proof. reflexivity. Qed.

(** **** The single-round handler *)

Definition broken_call : ToolCall :=
  {| tc_id := "b"; tc_function_name := "broken_tool";
     tc_function_arguments := "{}" |}.

Definition user_only : ApiParams :=
  base_params "deepseek-chat" [Dict "user" "q"].

Definition legacy_failing_response : Response :=
  tool_response [search_call "c"; broken_call; search_call "d"].

Lemma legacy_handler_aborts_on_first_failure_witness :
  _handle_tool_execution Script string scripted_json_loads scripted_create
    "deepseek-chat" legacy_failing_response user_only scripted_tool_manager
    [Returned (text_response "unused")]
  = ([Returned (text_response "unused")],
     [LegacyExecuteTool "search_course_content" "{}"%string
        (Returned "result of search_course_content"%string)]
       ++ [LegacyExecuteTool "broken_tool" "{}"%string
             (Raised (Exc "index offline"))],
     Raised (Exc "index offline")).
Proof.
  refine (proj1 (legacy_handler_aborts_on_first_failure Script string
                   scripted_json_loads scripted_create "deepseek-chat"
                   legacy_failing_response user_only scripted_tool_manager
                   [Returned (text_response "unused")]
                   [Returned (text_response "unused")]
                   [Returned (text_response "unused")]
                   [search_call "c"] broken_call [search_call "d"]
                   _ _
                   ([Dict "user" "q"; Obj (message legacy_failing_response);
                     ToolDict "c" "result of search_course_content"])
                   (Exc "index offline") eq_refl eq_refl _)).
  apply (fails_raising Script string scripted_json_loads scripted_tool_manager
           broken_call _ _ "{}"%string (Exc "index offline")); reflexivity.
Defined.

Lemma legacy_handler_agrees_when_tools_succeed_witness :
  _handle_tool_execution Script string scripted_json_loads scripted_create
    "deepseek-chat" (tool_response [search_call "c1"]) user_only
    scripted_tool_manager [Returned (text_response "final")]
  = ([],
     [LegacyExecuteTool "search_course_content" "{}"%string
        (Returned "result of search_course_content"%string);
      LegacyCreate
        (base_params "deepseek-chat"
           [Dict "user" "q"; Obj (message (tool_response [search_call "c1"]));
            ToolDict "c1" "result of search_course_content"])
        (Returned (text_response "final"))],
     Returned (Some "final"%string)).
Proof.
  destruct (legacy_handler_agrees_when_tools_succeed Script string
              scripted_json_loads scripted_create "deepseek-chat"
              (tool_response [search_call "c1"]) user_only
              scripted_tool_manager 1
              [Returned (text_response "final")]
              [Returned (text_response "final")]
              [LegacyExecuteTool "search_course_content" "{}"%string
                 (Returned "result of search_course_content"%string)]
              [Dict "user" "q"; Obj (message (tool_response [search_call "c1"]));
               ToolDict "c1" "result of search_course_content"]
              eq_refl)
    as (log & results & _ & _ & _ & _ & E).
  exact E.
Defined.

End AIGenerator.

(* ================================================================= *)
(** ** The retrieval engine ([vector_store.py])

    The module is imported by the tests but is not among the sources at
    hand; its functions are given here as the specification describes them. *)

Module VectorStore.

(** A chunk's metadata: its course title and, when it belongs to a lesson,
    the lesson number. *)
Record Metadata : Type := {
  course_title : string;
  lesson_number : option Z
}.

Inductive FilterValue : Type :=
| VStr (s : string)
| VInt (n : Z).

(** A filter as the index consumes it: [{key: value}] or [{"$and": [...]}]. *)
#[warnings="-register-all"]
Inductive Filter : Type :=
| Equals (key : string) (value : FilterValue)
| And (clauses : list Filter).

(** Modelled from the spec: [VectorStore._build_filter] of the missing
    [vector_store.py], after section 4.2 (neither present, only the course
    title, only the lesson number, both). *)
Definition build_filter (course_title : option string)
    (lesson_number : option Z) : option Filter :=
  match course_title, lesson_number with
  | None, None => None
  | Some c, None => Some (Equals "course_title" (VStr c))
  | None, Some n => Some (Equals "lesson_number" (VInt n))
  | Some c, Some n =>
      Some (And [Equals "course_title" (VStr c);
                 Equals "lesson_number" (VInt n)])
  end.

Definition lesson_eqb (a : option Z) (n : Z) : bool :=
  match a with
  | Some m => (m =? n)%Z
  | None => false
  end.

(** Whether a chunk passes a filter. *)
Fixpoint matches (f : Filter) (md : Metadata) : bool :=
  match f with
  | Equals key (VStr s) =>
      String.eqb key "course_title" && String.eqb (VectorStore.course_title md) s
  | Equals key (VInt n) =>
      String.eqb key "lesson_number" && lesson_eqb (VectorStore.lesson_number md) n
  | And clauses =>
      (fix all (l : list Filter) : bool :=
         match l with
         | [] => true
         | c :: rest => matches c md && all rest
         end) clauses
  end.

(** The absent filter matches everything. *)
Definition passes (f : option Filter) (md : Metadata) : bool :=
  match f with
  | None => true
  | Some f => matches f md
  end.

Section Retriever.

(** How the index measures distance. *)
Variable Distance : Type.

(** Modelled from the spec: the result set of the missing [vector_store.py]
    (class [SearchResults]), after section 3: ranked triples and an optional
    error. *)
Record SearchResults : Type := {
  hits : list (string * Metadata * Distance);
  error : option string
}.

Definition empty (error_msg : string) : SearchResults :=
  {| hits := []; error := Some error_msg |}.

Definition is_empty (results : SearchResults) : bool :=
  (List.length (hits results) =? 0)%nat.

(** The catalog lookup contract: the single nearest title, or nothing. *)
Variable catalog_lookup : string -> option string.

(** The retrieval query contract: query text, filter, result count. *)
Variable content_query :
  string -> option Filter -> Z -> Result (list (string * Metadata * Distance)).

Variable max_results : Z.

(** A query sent to one of the two indexes. *)
Inductive IndexCall : Type :=
| CatalogLookup (name : string)
| ContentQuery (query : string) (filter : option Filter) (k : Z).

Definition not_found (name : string) : string :=
  ("No course found matching '" ++ name ++ "'")%string.

(** Modelled from the spec: the Course Resolver of the missing
    [vector_store.py], after section 4.3: the nearest catalog entry, or the
    failure message. *)
Definition resolve (name : string) : string + string :=
  match catalog_lookup name with
  | Some title => inl title
  | None => inr (not_found name)
  end.

Definition query_content (query : string) (filter : option Filter)
  : SearchResults :=
  match content_query query filter max_results with
  | Returned found => {| hits := found; error := None |}
  | Raised e => empty ("Search error: " ++ str e)%string
  end.

(** Modelled from the spec: [VectorStore.search] of the missing
    [vector_store.py], after section 4.4, steps 1 to 4; the second component
    lists the index queries made, in order. *)
Definition search (query : string) (course_name : option string)
    (lesson_number : option Z) : SearchResults * list IndexCall :=
  match course_name with
  | Some name =>
      match resolve name with
      | inr message => (empty message, [CatalogLookup name])
      | inl title =>
          let filter := build_filter (Some title) lesson_number in
          (query_content query filter,
           [CatalogLookup name; ContentQuery query filter max_results])
      end
  | None =>
      let filter := build_filter None lesson_number in
      (query_content query filter, [ContentQuery query filter max_results])
  end.

Definition is_content_query (c : IndexCall) : bool :=
  match c with
  | ContentQuery _ _ _ => true
  | CatalogLookup _ => false
  end.

End Retriever.

Arguments hits {Distance} s.
Arguments error {Distance} s.
Arguments is_empty {Distance} results.
Arguments empty {Distance} error_msg.

Lemma prefix_append (a b : string) : String.prefix a (a ++ b)%string = true.
Proof.
  induction a as [|c a IH]; simpl; [destruct b; reflexivity|].
  destruct (ascii_dec c c); [exact IH | congruence].
Qed.

(** What the filter of [build_filter] lets through. *)
Lemma build_filter_passes title lesson md :
  passes (build_filter title lesson) md
  = match title with
    | Some c => String.eqb (VectorStore.course_title md) c
    | None => true
    end
    && match lesson with
       | Some n => lesson_eqb (VectorStore.lesson_number md) n
       | None => true
       end.
Proof.
  destruct title, lesson; simpl; rewrite ?andb_true_r; reflexivity.
Qed.

(** C7.  [build_filter] is a function of its two arguments with the four
    values of the table, and its value always has one of these four
    shapes. *)
Theorem build_filter_table :
  build_filter None None = None
  /\ build_filter (Some "C"%string) None
     = Some (Equals "course_title" (VStr "C"))
  /\ build_filter None (Some 1%Z) = Some (Equals "lesson_number" (VInt 1))
  /\ build_filter (Some "C"%string) (Some 1%Z)
     = Some (And [Equals "course_title" (VStr "C");
                  Equals "lesson_number" (VInt 1)])
  /\ (forall title lesson,
        match title, lesson with
        | None, None => build_filter title lesson = None
        | Some c, None =>
            build_filter title lesson = Some (Equals "course_title" (VStr c))
        | None, Some n =>
            build_filter title lesson = Some (Equals "lesson_number" (VInt n))
        | Some c, Some n =>
            build_filter title lesson
            = Some (And [Equals "course_title" (VStr c);
                         Equals "lesson_number" (VInt n)])
        end)
  /\ (forall title lesson,
        build_filter title lesson = None
        \/ (exists c, build_filter title lesson
                      = Some (Equals "course_title" (VStr c)))
        \/ (exists n, build_filter title lesson
                      = Some (Equals "lesson_number" (VInt n)))
        \/ (exists c n, build_filter title lesson
                        = Some (And [Equals "course_title" (VStr c);
                                     Equals "lesson_number" (VInt n)]))).
Proof.
  repeat split; try reflexivity.
  - intros [c|] [n|]; reflexivity.
  - intros [c|] [n|]; simpl; eauto 6.
Qed.

(** C8.  A search for a course name the resolver cannot resolve returns the
    empty result set whose error is [No course found matching 'name'], and
    asks the catalog only: the content index is not queried. *)
Theorem search_course_not_found
    (Distance : Type) catalog_lookup content_query max_results
    (query name : string) (lesson : option Z) :
  catalog_lookup name = None ->
  let out := search Distance catalog_lookup content_query max_results
               query (Some name) lesson in
  is_empty (fst out) = true
  /\ error (fst out) = Some ("No course found matching '" ++ name ++ "'")%string
  /\ (exists message,
        error (fst out) = Some message
        /\ String.prefix "No course found matching" message = true)
  /\ snd out = [CatalogLookup name]
  /\ existsb is_content_query (snd out) = false.
Proof.
  intros Hc out. subst out. unfold search, resolve. rewrite Hc. simpl.
  repeat split. eexists; split; [reflexivity|].
  unfold not_found.
  change ("No course found matching '" ++ name ++ "'")%string
    with ("No course found matching" ++ (" '" ++ name ++ "'"))%string.
  apply prefix_append.
Qed.

Lemma search_course_not_found_witness :
  (fun _ : string => @None string) "Nonexistent"%string = None
  /\ error (fst (search Z (fun _ => None) (fun _ _ _ => Returned []) 5
                   "x" (Some "Nonexistent"%string) None))
     = Some "No course found matching 'Nonexistent'"%string.
Proof.
  split; [reflexivity|].
  exact (proj1 (proj2 (search_course_not_found Z (fun _ => None)
                         (fun _ _ _ => Returned []) 5%Z
                         "x" "Nonexistent" None eq_refl))).
Defined.

End VectorStore.

(* ================================================================= *)
(** ** The search tool ([search_tools.py])

    Also known through its tests only: the formatter of a result set and the
    list of sources it keeps. *)

Module SearchTools.

Import VectorStore.

Definition render (n : Z) : string := NilZero.string_of_int (Z.to_int n).

(** Modelled from the spec: the source label of a chunk in the missing
    [search_tools.py], after sections 3 and 4.5: the course title, followed
    by the lesson when the metadata has one. *)
Definition source_label (md : Metadata) : string :=
  match VectorStore.lesson_number md with
  | Some n => (VectorStore.course_title md ++ " - Lesson " ++ render n)%string
  | None => VectorStore.course_title md
  end.

Definition mem (label : string) (sources : list string) : bool :=
  existsb (String.eqb label) sources.

(** Modelled from the spec: the Source Tracker of the missing
    [search_tools.py], after section 4.5: a label is appended to the list
    unless the list holds it already. *)
Definition track (sources : list string) (label : string) : list string :=
  if mem label sources then sources else sources ++ [label].

Definition track_all (sources labels : list string) : list string :=
  fold_left track labels sources.

Definition join_blocks (blocks : list string) : string :=
  String.concat (nl ++ nl) blocks.

Definition filter_suffix (course_name : option string)
    (lesson_number : option Z) : string :=
  (match course_name with
   | Some c => " in course '" ++ c ++ "'"
   | None => ""
   end
   ++ match lesson_number with
      | Some n => " in lesson " ++ render n
      | None => ""
      end)%string.

Section Formatter.

Variable Distance : Type.

(** The labels of a result set, one per result, in result order. *)
Definition labels (results : SearchResults Distance) : list string :=
  map (fun h => source_label (snd (fst h))) (hits results).

Definition block (h : string * Metadata * Distance) : string :=
  ("[" ++ source_label (snd (fst h)) ++ "]" ++ nl ++ fst (fst h))%string.

(** Modelled from the spec: [CourseSearchTool._format_results] of the
    missing [search_tools.py], after section 4.5: the error alone when there
    is one, the no-content sentence for an empty set, the labelled blocks
    otherwise.  The active filter is passed for the suffix of the second
    case; the tracker starts cleared.  Returns the display text and the
    tracked list of sources. *)
Definition format_results (course_name : option string)
    (lesson_number : option Z) (results : SearchResults Distance)
  : string * list string :=
  match error results with
  | Some message => (message, [])
  | None =>
      if is_empty results then
        (("No relevant content found"
            ++ filter_suffix course_name lesson_number)%string, [])
      else
        (join_blocks (map block (hits results)),
         track_all [] (labels results))
  end.

End Formatter.

(** *** Duplicates removed by first occurrence

    Stated from the specification's words, independently of the tracker:
    keep a label, and drop its later occurrences from what follows. *)
Fixpoint first_occurrences (l : list string) : list string :=
  match l with
  | [] => []
  | x :: rest =>
      x :: filter (fun y => negb (String.eqb x y)) (first_occurrences rest)
  end.

Lemma filter_twice {A} (f g : A -> bool) (l : list A) :
  filter f (filter g l) = filter (fun x => g x && f x) l.
Proof.
  induction l as [|a l IH]; simpl; [reflexivity|].
  destruct (g a); simpl; [destruct (f a)|]; rewrite IH; reflexivity.
Qed.

Lemma mem_app label l1 l2 : mem label (l1 ++ l2) = mem label l1 || mem label l2.
Proof. apply existsb_app. Qed.

(** The tracker, started on [sources], adds the first occurrences of the
    labels that [sources] does not hold. *)
Lemma track_all_first_occurrences l :
  forall sources,
    track_all sources l
    = sources ++ filter (fun x => negb (mem x sources)) (first_occurrences l).
Proof.
  induction l as [|x rest IH]; intros sources; simpl.
  - rewrite app_nil_r. reflexivity.
  - unfold track_all in *. simpl. unfold track at 2.
    destruct (mem x sources) eqn:Hx; simpl; rewrite IH.
    + f_equal. rewrite filter_twice. apply filter_ext. intros y.
      destruct (String.eqb x y) eqn:Hxy; simpl; [|reflexivity].
      apply String.eqb_eq in Hxy; subst. rewrite Hx. reflexivity.
    + rewrite <- app_assoc. simpl. do 2 f_equal.
      rewrite filter_twice. apply filter_ext. intros y.
      rewrite mem_app. simpl. rewrite orb_false_r, negb_orb.
      rewrite String.eqb_sym. apply andb_comm.
Qed.

Lemma track_all_cleared l : track_all [] l = first_occurrences l.
Proof.
  rewrite track_all_first_occurrences. simpl.
  apply forallb_filter_id, forallb_forall. reflexivity.
Qed.

Lemma first_occurrences_In l x : In x (first_occurrences l) <-> In x l.
Proof.
  induction l as [|a l IH]; simpl; [tauto|].
  rewrite filter_In, IH. split.
  - intros [H|[H _]]; auto.
  - intros [H|H]; auto.
    destruct (String.eqb a x) eqn:E.
    + left. apply String.eqb_eq; assumption.
    + right. split; auto.
Qed.

Lemma first_occurrences_NoDup l : NoDup (first_occurrences l).
Proof.
  induction l as [|a l IH]; simpl; constructor.
  - rewrite filter_In. intros [_ H]. rewrite String.eqb_refl in H. discriminate.
  - apply NoDup_filter; assumption.
Qed.

(** C9.  For a result set that is formatted into excerpts (no error, or no
    result at all), the tracked source list is the list of the per-result
    labels, in result order, with every label kept at its first occurrence
    only: it has no duplicate, holds exactly the labels of the results, and
    labels [A; A; B] give [A; B]. *)
Theorem tracked_sources_first_occurrences
    (Distance : Type) course_name lesson_number
    (results : SearchResults Distance) :
  error results = None \/ is_empty results = true ->
  snd (format_results Distance course_name lesson_number results)
  = first_occurrences (labels Distance results)
  /\ NoDup (snd (format_results Distance course_name lesson_number results))
  /\ (forall label,
        In label (snd (format_results Distance course_name lesson_number results))
        <-> In label (labels Distance results))
  /\ first_occurrences ["A"; "A"; "B"]%string = ["A"; "B"]%string.
Proof.
  intros H.
  assert (E : snd (format_results Distance course_name lesson_number results)
              = first_occurrences (labels Distance results)).
  { rewrite <- track_all_cleared.
    unfold format_results, labels, is_empty in *.
    destruct results as [hs [message|]]; simpl in *.
    - destruct H as [H|H]; [discriminate|].
      destruct hs; [reflexivity | discriminate].
    - destruct hs as [|h hs]; reflexivity. }
  rewrite E. repeat split.
  - apply first_occurrences_NoDup.
  - apply first_occurrences_In.
  - apply first_occurrences_In.
Qed.

Definition chunk (title : string) (lesson : Z) (text : string)
  : string * Metadata * Z :=
  (text, {| course_title := title; lesson_number := Some lesson |}, 0%Z).

(** The result set of the test [test_format_results_unique_sources]. *)
Definition duplicate_sources : SearchResults Z :=
  {| hits := [chunk "Course A" 1 "Content 1";
              chunk "Course A" 1 "Content 2";
              chunk "Course B" 2 "Content 3"];
     error := None |}.

Lemma tracked_sources_first_occurrences_witness :
  error duplicate_sources = None
  /\ snd (format_results Z None None duplicate_sources)
     = ["Course A - Lesson 1"; "Course B - Lesson 2"]%string.
Proof.
  split; [reflexivity|].
  exact (proj1 (tracked_sources_first_occurrences Z None None
                  duplicate_sources (or_introl eq_refl))).
Defined.

End SearchTools.

(* ================================================================= *)
(** ** The HTTP endpoints ([app.py])

    The two endpoint functions.  The RAG system they call is an external
    collaborator, with its state in an abstract [World]; logging and console
    output are not modelled. *)

Module App.

(** [QueryRequest] *)
Record QueryRequest : Type := {
  query : string;
  session_id : option string
}.

(** [QueryResponse] *)
Record QueryResponse : Type := {
  answer : string;
  sources : list string;
  response_session_id : string
}.

(** [CourseStats] *)
Record CourseStats : Type := {
  total_courses : Z;
  course_titles : list string
}.

(** [HTTPException(status_code=..., detail=...)] *)
Record HTTPException : Type := {
  status_code : Z;
  detail : string
}.

(** What an endpoint function does: it returns its response model or raises
    an [HTTPException]. *)
Inductive Reply (A : Type) : Type :=
| Responds (a : A)
| Refuses (e : HTTPException).

Arguments Responds {A} a.
Arguments Refuses {A} e.

(** A call of the RAG system. *)
Inductive Call : Type :=
| CreateSession
    (* rag_system.session_manager.create_session() *)
| Query (query session_id : string)
    (* rag_system.query(query, session_id) *)
| GetCourseAnalytics.
    (* rag_system.get_course_analytics() *)

(** [d[key]] on a dictionary kept as key/value pairs: the value, or
    [KeyError(key)], which prints as the quoted key. *)
Fixpoint getitem {V} (d : list (string * V)) (key : string) : Result V :=
  match d with
  | [] => Raised (Exc ("'" ++ key ++ "'"))
  | (k, v) :: rest => if String.eqb k key then Returned v else getitem rest key
  end.

(** The string held by a session id known to be one. *)
Definition get_id (session_id : option string) : string :=
  match session_id with
  | Some s => s
  | None => ""
  end.

(** [answer[:100]], evaluated for the debug output: a slice of a string, a
    [TypeError] on [None]. *)
Definition slice100 (answer : option string) : Result string :=
  match answer with
  | Some text => Returned (String.substring 0 100 text)
  | None => Raised (Exc "'NoneType' object is not subscriptable")
  end.

Section Endpoints.

Variable World : Type.

Variable create_session : World -> World * Result string.

(** [rag_system.query]: the answer is what the generator returned, a string
    or [None], with the list of sources. *)
Variable rag_query :
  string -> string -> World -> World * Result (option string * list string).

(** A value held by the analytics dictionary: any Python object. *)
Variable PyObject : Type.

Variable get_course_analytics :
  World -> World * Result (list (string * PyObject)).

(** [CourseStats(total_courses=..., course_titles=...)]: the validation of
    the two values is the model library's; it gives the statistics, or
    raises its [ValidationError]. *)
Variable validate_course_stats : PyObject -> PyObject -> Result CourseStats.

(** What printing a [ValidationError] of [QueryResponse] gives for an
    answer that is not a string. *)
Variable answer_validation_error : string.

(** [QueryResponse(answer=..., sources=..., session_id=...)] with its
    validation. *)
Definition make_query_response (answer : option string)
    (sources : list string) (session_id : string) : Result QueryResponse :=
  match answer with
  | Some text =>
      Returned {| answer := text; sources := sources;
                  response_session_id := session_id |}
  | None => Raised (Exc answer_validation_error)
  end.

(** The body of the [try] of [query_documents]. *)
Definition query_body (request : QueryRequest) (w : World)
  : World * list Call * Result QueryResponse :=
  let session_id := App.session_id request in
  let '(w1, l1, created) :=
    if negb (truthy_str session_id) then
      let '(w1, r) := create_session w in (w1, [CreateSession], r)
    else (w, [], Returned (get_id session_id))
  in
  match created with
  | Raised e => (w1, l1, Raised e)
  | Returned session_id =>
      let '(w2, r) := rag_query (query request) session_id w1 in
      let l2 := l1 ++ [Query (query request) session_id] in
      match r with
      | Raised e => (w2, l2, Raised e)
      | Returned (answer, sources) =>
          match slice100 answer with
          | Raised e => (w2, l2, Raised e)
          | Returned _ =>
              (w2, l2, make_query_response answer sources session_id)
          end
      end
  end.

(** [HTTPException(status_code=500, detail=f"Query processing error: ...")] *)
Definition query_error (e : Exception) : HTTPException :=
  {| status_code := 500;
     detail := ("Query processing error: " ++ str e)%string |}.

Definition query_documents (request : QueryRequest) (w : World)
  : World * list Call * Reply QueryResponse :=
  let '(w', l, r) := query_body request w in
  match r with
  | Returned response => (w', l, Responds response)
  | Raised e => (w', l, Refuses (query_error e))
  end.

Definition course_stats_body (w : World)
  : World * list Call * Result CourseStats :=
  let '(w1, r) := get_course_analytics w in
  let l := [GetCourseAnalytics] in
  match r with
  | Raised e => (w1, l, Raised e)
  | Returned analytics =>
      match getitem analytics "total_courses" with
      | Raised e => (w1, l, Raised e)
      | Returned total =>
          match getitem analytics "course_titles" with
          | Raised e => (w1, l, Raised e)
          | Returned titles => (w1, l, validate_course_stats total titles)
          end
      end
  end.

Definition get_course_stats (w : World)
  : World * list Call * Reply CourseStats :=
  let '(w', l, r) := course_stats_body w in
  match r with
  | Returned stats => (w', l, Responds stats)
  | Raised e =>
      (w', l, Refuses {| status_code := 500; detail := str e |})
  end.

Definition calls_of {A} (x : World * list Call * A) : list Call := snd (fst x).

Definition reply_of {A} (x : World * list Call * A) : A := snd x.

Arguments query_error : simpl never.

(** X13.  Which session a request is processed in.  A request with a non-empty
    session id never creates a session: the RAG system is queried once, in
    that session, and a response carries that id.  A request without one (or
    with the empty string) first creates a session; if that fails the RAG
    system is not queried; otherwise it is queried once in the new session,
    and a response carries the new id. *)
Theorem query_documents_session (request : QueryRequest) (w : World) :
  match App.session_id request with
  | Some (String c s) =>
      calls_of (query_documents request w)
      = [Query (query request) (String c s)]
      /\ (forall response,
            reply_of (query_documents request w) = Responds response ->
            response_session_id response = String c s)
  | _ =>
      match snd (create_session w) with
      | Raised e =>
          calls_of (query_documents request w) = [CreateSession]
          /\ reply_of (query_documents request w) = Refuses (query_error e)
      | Returned new_id =>
          calls_of (query_documents request w)
          = [CreateSession; Query (query request) new_id]
          /\ (forall response,
                reply_of (query_documents request w) = Responds response ->
                response_session_id response = new_id)
      end
  end.
Proof.
  unfold query_documents, query_body, calls_of, reply_of.
  destruct (App.session_id request) as [[|c s]|]; simpl.
  1,3: destruct (create_session w) as [w1 [new_id|e]]; simpl;
       [| split; reflexivity];
       destruct (rag_query (query request) new_id w1)
         as [w2 [[[text|] srcs]|e]]; simpl;
       (split; [reflexivity | intros response E; inversion E; reflexivity]).
  destruct (rag_query (query request) (String c s) w)
    as [w2 [[[text|] srcs]|e]]; simpl;
    (split; [reflexivity | intros response E; inversion E; reflexivity]).
Qed.

(** Where a request's session comes from: the session manager when the
    request has no session id or an empty one, the request otherwise. *)
Definition session_start (request : QueryRequest) (w : World)
  : World * Result string :=
  if negb (truthy_str (App.session_id request)) then create_session w
  else (w, Returned (get_id (App.session_id request))).

Lemma reply_of_query_documents (request : QueryRequest) (w : World) :
  reply_of (query_documents request w)
  = match snd (session_start request w) with
    | Raised e => Refuses (query_error e)
    | Returned sid =>
        match snd (rag_query (query request) sid
                     (fst (session_start request w))) with
        | Raised e => Refuses (query_error e)
        | Returned (Some text, found) =>
            Responds {| answer := text; sources := found;
                        response_session_id := sid |}
        | Returned (None, _) =>
            Refuses
              (query_error (Exc "'NoneType' object is not subscriptable"))
        end
    end.
Proof.
  unfold query_documents, query_body, reply_of, session_start.
  destruct (negb (truthy_str (App.session_id request)));
    [destruct (create_session w) as [w1 [new_id|e0]] |];
    cbn [fst snd]; try reflexivity;
    destruct (rag_query (query request) _ _) as [w2 [[[text|] srcs]|e1]];
    reflexivity.
Qed.

(** X14.  How a query ends.  The endpoint never lets an exception through.
    If the session cannot be created, or the RAG system raises, the request
    is refused with status 500 and the detail [Query processing error: ]
    followed by the text of that exception.  If the RAG system returns an
    answer and sources for this query in this session, these are the
    response, unchanged, with the id of the session. *)
Theorem query_documents_outcome (request : QueryRequest) (w : World) :
  reply_of (query_documents request w)
  = match snd (session_start request w) with
    | Raised e =>
        Refuses {| status_code := 500;
                   detail := ("Query processing error: " ++ str e)%string |}
    | Returned sid =>
        match snd (rag_query (query request) sid
                     (fst (session_start request w))) with
        | Raised e =>
            Refuses {| status_code := 500;
                       detail := ("Query processing error: " ++ str e)%string |}
        | Returned (Some text, found) =>
            Responds {| answer := text; sources := found;
                        response_session_id := sid |}
        | Returned (None, _) =>
            Refuses {| status_code := 500;
                       detail := "Query processing error: 'NoneType' object is not subscriptable" |}
        end
    end.
Proof.
  rewrite reply_of_query_documents.
  destruct (snd (session_start request w)) as [sid|e]; [| reflexivity].
  destruct (snd (rag_query (query request) sid
                   (fst (session_start request w))))
    as [[[text|] found]|e]; reflexivity.
Qed.

(** X15.  A [None] answer of the RAG system is not passed on, whatever the
    session of the request: the debug output slices the answer before the
    response is built, which raises, and the request is refused with status
    500. *)
Theorem none_answer_refused
    (request : QueryRequest) (w w2 : World) sid found :
  snd (session_start request w) = Returned sid ->
  rag_query (query request) sid (fst (session_start request w))
    = (w2, Returned (None, found)) ->
  reply_of (query_documents request w)
  = Refuses
      {| status_code := 500;
         detail := "Query processing error: 'NoneType' object is not subscriptable" |}.
Proof.
  intros Hs Hq. rewrite reply_of_query_documents, Hs, Hq. reflexivity.
Qed.

Definition entry {V} (d : list (string * V)) (key : string) : option V :=
  option_map snd (find (fun kv => String.eqb (fst kv) key) d).

Lemma getitem_entry {V} (d : list (string * V)) key :
  getitem d key
  = match entry d key with
    | Some v => Returned v
    | None => Raised (Exc ("'" ++ key ++ "'"))
    end.
Proof.
  unfold entry. induction d as [|[k v] d IH]; simpl; [reflexivity|].
  destruct (String.eqb k key); [reflexivity | exact IH].
Qed.

(** X16.  The statistics endpoint asks the RAG system once and never lets an
    exception through.  A failure of the RAG system is refused with status
    500 and the text of the exception; analytics without the key
    [total_courses], looked up first, or without the key [course_titles],
    with status 500 and the quoted key as detail; with both keys, the reply
    is what the validation of the two values gives: the statistics, or
    status 500 with the text of the validation error. *)
Theorem get_course_stats_outcome (w : World) :
  calls_of (get_course_stats w) = [GetCourseAnalytics]
  /\ reply_of (get_course_stats w)
     = match snd (get_course_analytics w) with
       | Raised e => Refuses {| status_code := 500; detail := str e |}
       | Returned analytics =>
           match entry analytics "total_courses",
                 entry analytics "course_titles" with
           | None, _ =>
               Refuses {| status_code := 500; detail := "'total_courses'" |}
           | Some _, None =>
               Refuses {| status_code := 500; detail := "'course_titles'" |}
           | Some total, Some titles =>
               match validate_course_stats total titles with
               | Returned stats => Responds stats
               | Raised e =>
                   Refuses {| status_code := 500; detail := str e |}
               end
           end
       end.
Proof.
  unfold get_course_stats, course_stats_body, calls_of, reply_of.
  destruct (get_course_analytics w) as [w1 [analytics|e0]]; cbn [fst snd];
    [| split; reflexivity].
  rewrite !getitem_entry.
  destruct (entry analytics "total_courses") as [total|];
    [destruct (entry analytics "course_titles") as [titles|];
     [destruct (validate_course_stats total titles)|]|];
    split; reflexivity.
Qed.

End Endpoints.

(** A RAG system whose generator came back without text. *)
Definition silent_query (_ _ : string) (w : unit)
  : unit * Result (option string * list string) :=
  (w, Returned (None, ["Python Basics - Lesson 1"%string])).

Definition new_session (w : unit) : unit * Result string :=
  (w, Returned "session_2"%string).

Definition anonymous_request : QueryRequest :=
  {| query := "What is Python?"; session_id := None |}.

Lemma none_answer_refused_witness :
  reply_of unit
    (query_documents unit new_session silent_query "invalid answer"
       anonymous_request tt)
  = Refuses
      {| status_code := 500;
         detail := "Query processing error: 'NoneType' object is not subscriptable" |}.
Proof.
  exact (none_answer_refused unit new_session silent_query "invalid answer"
           anonymous_request tt tt "session_2"
           ["Python Basics - Lesson 1"%string] eq_refl eq_refl).
Defined.

End App.
